(** * Verification of the serial LED palette sketch

    Shallow embedding of [src/arduino_palette_sketch/backup.cpp]: the
    byte-to-line framer, the two command parsers, the colour calibration
    and the deferred render step of [loop()].

    Conventions.
    - A C [int] and a C [char] are modelled as [Z]; every value the sketch
      computes itself stays far inside the 16-bit range of the AVR [int],
      the only place where wrap-around can happen is inside the C library
      conversions [atoi] and [sscanf], where it is written out ([wrap16]).
    - A C string (a [char*] read up to its NUL) is a [list Z] without the
      terminator; pointer arithmetic on it is [drop].
    - Arrays are lists updated by index with stdpp's [<[i:=x]>] and read with
      [!!].  In the render step a division by zero or an access outside an
      array, undefined behaviour in C, is [None].  The parsers and the framer
      write only below a bound they have just tested ([i < n <= MAX_PALETTE],
      [bufferPos <= 510]), inside the arrays of every well-formed state.
    - [float] is IEEE binary32 with rounding to nearest, computed with the
      Standard Library's [SpecFloat] operations at precision 24; the
      conversion to [int] truncates toward zero. *)

From Stdlib Require Import ZArith Lia Ascii String.
From Stdlib Require Import Floats.SpecFloat.
From stdpp Require Import base option list.

Local Close Scope string_scope.
Local Open Scope Z_scope.

(** ** Characters and C strings *)

Definition ch (a : ascii) : Z := Z.of_nat (nat_of_ascii a).

Ltac norm_ch :=
  repeat match goal with
  | |- context [ch ?a] =>
      let v := eval vm_compute in (ch a) in change (ch a) with v
  | H : context [ch ?a] |- _ =>
      let v := eval vm_compute in (ch a) in change (ch a) with v in H
  end.

Definition cstring := list Z.

(** [char c = Serial.read()]: the byte 0..255 narrowed to the signed [char]
    of avr-gcc. *)
Definition char_of_byte (b : Z) : Z :=
  let b := b mod 256 in if 128 <=? b then b - 256 else b.

Fixpoint of_string (s : String.string) : cstring :=
  match s with
  | String.EmptyString => []
  | String.String a s' => ch a :: of_string s'
  end.

(** The string a [char*] into a buffer denotes: everything before the first
    NUL. *)
Fixpoint c_str (buf : list Z) : cstring :=
  match buf with
  | [] => []
  | c :: buf' => if c =? 0 then [] else c :: c_str buf'
  end.

(** [ptr[k]] for a C string: reading at the end yields the terminator. *)
Definition at_ (ptr : cstring) (k : nat) : Z := nth k ptr 0.

Definition isdigit (c : Z) : bool := (ch "0" <=? c) && (c <=? ch "9").

(** [isspace] in the C locale: space, and HT, LF, VT, FF, CR (9..13). *)
Definition isspace (c : Z) : bool := (c =? 32) || ((9 <=? c) && (c <=? 13)).

Fixpoint skip_space (s : cstring) : cstring :=
  match s with
  | c :: s' => if isspace c then skip_space s' else s
  | [] => []
  end.

(** The 16-bit two's complement [int] of the AVR. *)
Definition wrap16 (z : Z) : Z := (z + 32768) mod 65536 - 32768.

(** Decimal digits accumulated left to right; returns the value and the
    unread rest. *)
Fixpoint scan_digits (acc : Z) (s : cstring) : Z * cstring :=
  match s with
  | c :: s' => if isdigit c then scan_digits (acc * 10 + (c - ch "0")) s'
               else (acc, s)
  | [] => (acc, [])
  end.

(** The optional sign of a decimal integer. *)
Definition scan_sign (s : cstring) : bool * cstring :=
  match s with
  | c :: s' => if c =? ch "-" then (true, s')
               else if c =? ch "+" then (false, s') else (false, s)
  | [] => (false, [])
  end.

(** [atoi]: white space, optional sign, digits; 0 when there is no digit. *)
Definition atoi (s : cstring) : Z :=
  let '(neg, s1) := scan_sign (skip_space s) in
  let '(v, _) := scan_digits 0 s1 in
  wrap16 (if neg then - v else v).

(** [strchr(s, c)] for a non-NUL [c]: the suffix that starts at the first
    occurrence, [None] for the null pointer. *)
Fixpoint strchr (s : cstring) (c : Z) : option cstring :=
  match s with
  | [] => None
  | x :: s' => if x =? c then Some s else strchr s' c
  end.

Definition strlen (s : cstring) : Z := Z.of_nat (length s).

(** One [%d] conversion of [sscanf]: white space is skipped, then an
    optional sign and at least one digit are required. *)
Definition scan_int (s : cstring) : option (Z * cstring) :=
  let '(neg, s1) := scan_sign (skip_space s) in
  match s1 with
  | c :: _ =>
      if isdigit c then
        let '(v, rest) := scan_digits 0 s1 in
        Some (wrap16 (if neg then - v else v), rest)
      else None
  | [] => None
  end.

(** [sscanf(data, "%d,%d,%d", &r, &g, &b)] with [r], [g], [b] initialised to
    0: the return value (-1 is EOF: the input ended before the first
    conversion) and the three variables afterwards. *)
Definition sscanf_d_d_d (data : cstring) : Z * (Z * Z * Z) :=
  match scan_int data with
  | None => ((if skip_space data is [] then -1 else 0), (0, 0, 0))
  | Some (r, s1) =>
      match s1 with
      | c1 :: s2 =>
          if c1 =? ch "," then
            match scan_int s2 with
            | None => (1, (r, 0, 0))
            | Some (g, s3) =>
                match s3 with
                | c2 :: s4 =>
                    if c2 =? ch "," then
                      match scan_int s4 with
                      | None => (2, (r, g, 0))
                      | Some (b, _) => (3, (r, g, b))
                      end
                    else (2, (r, g, 0))
                | [] => (2, (r, g, 0))
                end
            end
          else (1, (r, 0, 0))
      | [] => (1, (r, 0, 0))
      end
  end.

(** ** Colour calibration in binary32 *)

Module F32.
Definition prec : Z := 24.
Definition emax : Z := 128.

Definition of_int (z : Z) : spec_float := binary_normalize prec emax z 0 false.
Definition mul : spec_float -> spec_float -> spec_float := SFmul prec emax.

(** A decimal literal [n/d], correctly rounded. *)
Definition lit (n d : Z) : spec_float := SFdiv prec emax (of_int n) (of_int d).

(** [(int) f]: the fractional part is discarded (truncation toward zero). *)
Definition to_int (f : spec_float) : Z :=
  match f with
  | S754_finite s m e => cond_Zopp s (Z.shiftl (Z.pos m) e)
  | _ => 0
  end.
End F32.

Definition RED_FACTOR : spec_float := F32.lit 100 100.
Definition GREEN_FACTOR : spec_float := F32.lit 75 100.
Definition BLUE_FACTOR : spec_float := F32.lit 90 100.

(** [(int)(v * FACTOR)] *)
Definition calibrate (v : Z) (factor : spec_float) : Z :=
  F32.to_int (F32.mul (F32.of_int v) factor).

(** [constrain(x, lo, hi)] of Arduino.h *)
Definition constrain (x lo hi : Z) : Z :=
  if x <? lo then lo else if hi <? x then hi else x.

(** ** hexToByte *)

Definition hexToByte (hi lo : Z) : Z :=
  let val := 0 in
  let val :=
    if (ch "0" <=? hi) && (hi <=? ch "9") then Z.shiftl (hi - ch "0") 4
    else if (ch "A" <=? hi) && (hi <=? ch "F") then Z.shiftl (hi - ch "A" + 10) 4
    else if (ch "a" <=? hi) && (hi <=? ch "f") then Z.shiftl (hi - ch "a" + 10) 4
    else val in
  let val :=
    if (ch "0" <=? lo) && (lo <=? ch "9") then Z.lor val (lo - ch "0")
    else if (ch "A" <=? lo) && (lo <=? ch "F") then Z.lor val (lo - ch "A" + 10)
    else if (ch "a" <=? lo) && (lo <=? ch "f") then Z.lor val (lo - ch "a" + 10)
    else val in
  val.

(** ** The sketch's globals *)

Definition NUM_LEDS : Z := 256.
Definition MAX_PALETTE : Z := 49.
Definition INPUT_BUFFER_SIZE : Z := 512.

(** FastLED's pixel: three [uint8_t] channels. *)
Record CRGB := { red : Z; green : Z; blue : Z }.

(** [CRGB(r, g, b)] called with [int] arguments: each is narrowed to
    [uint8_t]. *)
Definition CRGB_of (r g b : Z) : CRGB :=
  {| red := r mod 256; green := g mod 256; blue := b mod 256 |}.

Record State := {
  paletteMode : bool;
  paletteSize : Z;
  paletteR : list Z;
  paletteG : list Z;
  paletteB : list Z;
  currentR : Z;
  currentG : Z;
  currentB : Z;
  needsUpdate : bool;
  inputBuffer : list Z;
  bufferPos : Z;
  leds : list CRGB
}.

(** The globals after static initialisation and [setup()]. *)
Definition initial : State := {|
  paletteMode := false;
  paletteSize := 0;
  paletteR := replicate (Z.to_nat MAX_PALETTE) 0;
  paletteG := replicate (Z.to_nat MAX_PALETTE) 0;
  paletteB := replicate (Z.to_nat MAX_PALETTE) 0;
  currentR := 0;
  currentG := 0;
  currentB := 0;
  needsUpdate := false;
  inputBuffer := replicate (Z.to_nat INPUT_BUFFER_SIZE) 0;
  bufferPos := 0;
  leds := replicate (Z.to_nat NUM_LEDS) (CRGB_of 0 0 0)
|}.

(** What the outside world sees of one pass through [loop()]. *)
Inductive Event :=
  | EvRead (byte : Z)             (* Serial.read() returned this byte *)
  | EvPin13 (high : bool)         (* digitalWrite(13, ...) *)
  | EvShow (frame : list CRGB).   (* FastLED.show() sent this frame *)

(** [paletteR[i] = r; paletteG[i] = g; paletteB[i] = b;] *)
Definition set_palette_entry (i r g b : Z) (st : State) : State :=
  {| paletteMode := paletteMode st; paletteSize := paletteSize st;
     paletteR := <[Z.to_nat i := r]> (paletteR st);
     paletteG := <[Z.to_nat i := g]> (paletteG st);
     paletteB := <[Z.to_nat i := b]> (paletteB st);
     currentR := currentR st; currentG := currentG st; currentB := currentB st;
     needsUpdate := needsUpdate st;
     inputBuffer := inputBuffer st; bufferPos := bufferPos st; leds := leds st |}.

(** [paletteSize = n; paletteMode = true; needsUpdate = true;] *)
Definition commit_palette (n : Z) (st : State) : State :=
  {| paletteMode := true; paletteSize := n;
     paletteR := paletteR st; paletteG := paletteG st; paletteB := paletteB st;
     currentR := currentR st; currentG := currentG st; currentB := currentB st;
     needsUpdate := true;
     inputBuffer := inputBuffer st; bufferPos := bufferPos st; leds := leds st |}.

(** [currentR = r; currentG = g; currentB = b; paletteMode = false;
    needsUpdate = true;] *)
Definition commit_single (r g b : Z) (st : State) : State :=
  {| paletteMode := false; paletteSize := paletteSize st;
     paletteR := paletteR st; paletteG := paletteG st; paletteB := paletteB st;
     currentR := r; currentG := g; currentB := b;
     needsUpdate := true;
     inputBuffer := inputBuffer st; bufferPos := bufferPos st; leds := leds st |}.

(** [inputBuffer[bufferPos] = c] followed by [bufferPos = pos'] *)
Definition put_char (c pos' : Z) (st : State) : State :=
  {| paletteMode := paletteMode st; paletteSize := paletteSize st;
     paletteR := paletteR st; paletteG := paletteG st; paletteB := paletteB st;
     currentR := currentR st; currentG := currentG st; currentB := currentB st;
     needsUpdate := needsUpdate st;
     inputBuffer := <[Z.to_nat (bufferPos st) := c]> (inputBuffer st);
     bufferPos := pos'; leds := leds st |}.

Definition set_bufferPos (pos' : Z) (st : State) : State :=
  {| paletteMode := paletteMode st; paletteSize := paletteSize st;
     paletteR := paletteR st; paletteG := paletteG st; paletteB := paletteB st;
     currentR := currentR st; currentG := currentG st; currentB := currentB st;
     needsUpdate := needsUpdate st;
     inputBuffer := inputBuffer st; bufferPos := pos'; leds := leds st |}.

Definition set_leds (l : list CRGB) (st : State) : State :=
  {| paletteMode := paletteMode st; paletteSize := paletteSize st;
     paletteR := paletteR st; paletteG := paletteG st; paletteB := paletteB st;
     currentR := currentR st; currentG := currentG st; currentB := currentB st;
     needsUpdate := needsUpdate st;
     inputBuffer := inputBuffer st; bufferPos := bufferPos st; leds := l |}.

(** [leds[i] = px] *)
Definition set_led (i : Z) (px : CRGB) (st : State) : State :=
  set_leds (<[Z.to_nat i := px]> (leds st)) st.

Definition set_needsUpdate (v : bool) (st : State) : State :=
  {| paletteMode := paletteMode st; paletteSize := paletteSize st;
     paletteR := paletteR st; paletteG := paletteG st; paletteB := paletteB st;
     currentR := currentR st; currentG := currentG st; currentB := currentB st;
     needsUpdate := v;
     inputBuffer := inputBuffer st; bufferPos := bufferPos st; leds := leds st |}.

(** ** parsePalette *)

(** The [for (int i = 0; i < n; i++)] loop with [cnt] iterations left.  The
    boolean tells whether the loop ran to its end ([true]) or left the
    function through [return] ([false]); the entries written before a
    [return] stay written. *)
Fixpoint parsePalette_loop (cnt : nat) (i : Z) (ptr : cstring) (st : State)
  : State * bool :=
  match cnt with
  | O => (st, true)
  | S cnt' =>
      if strlen ptr <? 6 then (st, false)
      else
        let st :=
          set_palette_entry i
            (calibrate (hexToByte (at_ ptr 0) (at_ ptr 1)) RED_FACTOR)
            (calibrate (hexToByte (at_ ptr 2) (at_ ptr 3)) GREEN_FACTOR)
            (calibrate (hexToByte (at_ ptr 4) (at_ ptr 5)) BLUE_FACTOR) st in
        let ptr := drop 6 ptr in
        let ptr := if at_ ptr 0 =? ch ":" then drop 1 ptr else ptr in
        parsePalette_loop cnt' (i + 1) ptr st
  end.

Definition parsePalette (data : cstring) (st : State) : State :=
  let ptr := drop 2 data in
  let n := atoi ptr in
  if (n <? 1) || (MAX_PALETTE <? n) then st
  else
    match strchr ptr (ch ":") with
    | None => st
    | Some ptr =>
        let ptr := drop 1 ptr in
        let '(st', finished) := parsePalette_loop (Z.to_nat n) 0 ptr st in
        if finished then commit_palette n st' else st'
    end.

(** ** parseSingle *)

Definition parseSingle (data : cstring) (st : State) : State :=
  let '(count, (r, g, b)) := sscanf_d_d_d data in
  if count =? 3 then
    commit_single (calibrate (constrain r 0 255) RED_FACTOR)
                  (calibrate (constrain g 0 255) GREEN_FACTOR)
                  (calibrate (constrain b 0 255) BLUE_FACTOR) st
  else st.

(** ** loop: phase 1, the serial drain *)

Definition LF : Z := 10.
Definition CR : Z := 13.

(** The body of [if (bufferPos > 0)]: terminate the line and dispatch on its
    first two characters. *)
Definition dispatch (st : State) : State :=
  let st := put_char 0 (bufferPos st) st in
  let data := c_str (inputBuffer st) in
  if (nth 0 (inputBuffer st) 0 =? ch "P") && (nth 1 (inputBuffer st) 0 =? ch ":")
  then parsePalette data st
  else parseSingle data st.

(** The body of the [while] loop for one character. *)
Definition framer_char (c : Z) (st : State) : State * list Event :=
  if (c =? LF) || (c =? CR) then
    if 0 <? bufferPos st
    then (set_bufferPos 0 (dispatch st), [EvPin13 true])
    else (set_bufferPos 0 st, [])
  else if bufferPos st <? 510 then (put_char c (bufferPos st + 1) st, [])
  else (st, []).

(** [while (Serial.available() > 0)]: [serial] is the sequence of bytes the
    loop finds available, in order, until [available()] first returns 0. *)
Fixpoint drain (serial : list Z) (st : State) : State * list Event :=
  match serial with
  | [] => (st, [])
  | byte :: serial' =>
      let '(st1, ev) := framer_char (char_of_byte byte) st in
      let '(st2, evs) := drain serial' st1 in
      (st2, EvRead byte :: ev ++ evs)
  end.

(** ** loop: phase 2, the render *)

(** Integer division of C; dividing by zero is undefined. *)
Definition c_div (a b : Z) : option Z :=
  if b =? 0 then None else Some (Z.quot a b).

(** Reading [a[i]]; outside the array is undefined. *)
Definition array_get {A} (a : list A) (i : Z) : option A :=
  if i <? 0 then None else a !! Z.to_nat i.

(** [for (int i = from; i < from + cnt; i++) body] *)
Fixpoint for_loop {S} (cnt : nat) (i : Z) (body : Z -> S -> option S) (s : S)
  : option S :=
  match cnt with
  | O => Some s
  | Datatypes.S cnt' => s' ← body i s; for_loop cnt' (i + 1) body s'
  end.

Definition palette_pixel (ledsPerBlock i : Z) (st : State) : option State :=
  idx ← c_div i ledsPerBlock;
  let idx := if paletteSize st <=? idx then paletteSize st - 1 else idx in
  r ← array_get (paletteR st) idx;
  g ← array_get (paletteG st) idx;
  b ← array_get (paletteB st) idx;
  _ ← array_get (leds st) i;
  Some (set_led i (CRGB_of r g b) st).

Definition flat_pixel (i : Z) (st : State) : option State :=
  _ ← array_get (leds st) i;
  Some (set_led i (CRGB_of (currentR st) (currentG st) (currentB st)) st).

(** The two branches that fill [leds]. *)
Definition composite (st : State) : option State :=
  if paletteMode st && (0 <? paletteSize st) then
    ledsPerBlock ← c_div NUM_LEDS (paletteSize st);
    for_loop (Z.to_nat NUM_LEDS) 0 (palette_pixel ledsPerBlock) st
  else
    for_loop (Z.to_nat NUM_LEDS) 0 flat_pixel st.

(** [if (needsUpdate) { ...; FastLED.show(); needsUpdate = false; }] *)
Definition render (st : State) : option (State * list Event) :=
  if needsUpdate st then
    st' ← composite st;
    Some (set_needsUpdate false st', [EvShow (leds st')])
  else Some (st, []).

Definition loop (serial : list Z) (st : State) : option (State * list Event) :=
  let '(st1, tr1) := drain serial st in
  '(st2, tr2) ← render st1;
  Some (st2, tr1 ++ [EvPin13 false] ++ tr2).

(** ** Reference definitions, following the specification's wording *)

(** The value of one hexadecimal digit, in either case. *)
Definition hex_digit_value (c : Z) : option Z :=
  if (ch "0" <=? c) && (c <=? ch "9") then Some (c - ch "0")
  else if (ch "A" <=? c) && (c <=? ch "F") then Some (c - ch "A" + 10)
  else if (ch "a" <=? c) && (c <=? ch "f") then Some (c - ch "a" + 10)
  else None.

(** A nibble as the decoder is specified to see it: a character that is not a
    hexadecimal digit counts as zero. *)
Definition lenient_nibble (c : Z) : Z := default 0 (hex_digit_value c).

(** Upper-case letters mapped to lower case, every other character kept. *)
Definition to_lower (c : Z) : Z :=
  if (ch "A" <=? c) && (c <=? ch "Z") then c + 32 else c.

(** ** Invariants, reference functions and sample inputs used by the theorems *)

Definition channel (v : Z) : Prop := 0 <= v <= 255.

(** The arrays have their declared sizes and the scalars stay in the ranges
    the sketch relies on. *)
Record wf (st : State) : Prop := {
  wf_paletteR : length (paletteR st) = Z.to_nat MAX_PALETTE;
  wf_paletteG : length (paletteG st) = Z.to_nat MAX_PALETTE;
  wf_paletteB : length (paletteB st) = Z.to_nat MAX_PALETTE;
  wf_inputBuffer : length (inputBuffer st) = Z.to_nat INPUT_BUFFER_SIZE;
  wf_leds : length (leds st) = Z.to_nat NUM_LEDS;
  wf_bufferPos : 0 <= bufferPos st <= 510;
  wf_paletteSize : 0 <= paletteSize st <= MAX_PALETTE
}.

(** Every stored channel value is a byte. *)
Record channels_ok (st : State) : Prop := {
  ok_currentR : channel (currentR st);
  ok_currentG : channel (currentG st);
  ok_currentB : channel (currentB st);
  ok_paletteR : Forall channel (paletteR st);
  ok_paletteG : Forall channel (paletteG st);
  ok_paletteB : Forall channel (paletteB st)
}.

(** The fields a rejected command must leave alone, palette entries apart. *)
Definition same_scalars (st st' : State) : Prop :=
  paletteMode st' = paletteMode st /\ paletteSize st' = paletteSize st /\
  currentR st' = currentR st /\ currentG st' = currentG st /\
  currentB st' = currentB st /\ needsUpdate st' = needsUpdate st /\
  inputBuffer st' = inputBuffer st /\ bufferPos st' = bufferPos st /\
  leds st' = leds st.

(** The colour the render loops store at pixel [i]. *)
Definition pixel (st : State) (i : Z) : CRGB :=
  if paletteMode st && (0 <? paletteSize st) then
    let idx := Z.quot i (Z.quot NUM_LEDS (paletteSize st)) in
    let idx := if paletteSize st <=? idx then paletteSize st - 1 else idx in
    CRGB_of (nth (Z.to_nat idx) (paletteR st) 0)
            (nth (Z.to_nat idx) (paletteG st) 0)
            (nth (Z.to_nat idx) (paletteB st) 0)
  else CRGB_of (currentR st) (currentG st) (currentB st).

(** The frame a render of [st] transmits. *)
Definition frame_of (st : State) : list CRGB := pixel st <$> seqZ 0 NUM_LEDS.

(** The states the sketch can be in between two passes through [loop()]. *)
Inductive reachable : State -> Prop :=
  | reach_initial : reachable initial
  | reach_loop st serial st' tr :
      reachable st -> loop serial st = Some (st', tr) -> reachable st'.

(** The framer stored [c] at the end of the line and advanced by one. *)
Definition appended (c : Z) (st st' : State) : Prop :=
  inputBuffer st' = <[Z.to_nat (bufferPos st) := c]> (inputBuffer st) /\
  bufferPos st' = bufferPos st + 1.

(** A line buffer holding 510 characters: the state after 510 letters [a]
    arrived on a fresh sketch. *)
Definition full_line_state : State :=
  fst (drain (replicate 510 (ch "a")) initial).

(** The palette index the specification assigns to pixel [i] for a palette of
    [n] colours: [min(i / blockSize, n - 1)] with
    [blockSize = NUM_LEDS / n]. *)
Definition block_index (n i : Z) : Z := Z.min (i / (NUM_LEDS / n)) (n - 1).

(** The palette entry at index [idx], as a pixel. *)
Definition palette_entry (st : State) (idx : Z) : CRGB :=
  CRGB_of (nth (Z.to_nat idx) (paletteR st) 0)
          (nth (Z.to_nat idx) (paletteG st) 0)
          (nth (Z.to_nat idx) (paletteB st) 0).

Definition set_input (buf : list Z) (pos : Z) (st : State) : State :=
  {| paletteMode := paletteMode st; paletteSize := paletteSize st;
     paletteR := paletteR st; paletteG := paletteG st; paletteB := paletteB st;
     currentR := currentR st; currentG := currentG st; currentB := currentB st;
     needsUpdate := needsUpdate st;
     inputBuffer := buf; bufferPos := pos; leds := leds st |}.

(** What the specification says a complete line does to the render state:
    a line that starts with [P:] is a palette command, any other line is
    tried as a single-colour command. *)
Definition apply_command (line : list Z) (st : State) : State :=
  if (nth 0 line 0 =? ch "P") && (nth 1 line 0 =? ch ":")
  then parsePalette (c_str line) st
  else parseSingle (c_str line) st.

(** A byte that is not a line terminator once read into a [char]. *)
Definition plain (byte : Z) : Prop :=
  char_of_byte byte <> LF /\ char_of_byte byte <> CR.

Definition terminator (byte : Z) : Prop :=
  char_of_byte byte = LF \/ char_of_byte byte = CR.

(** A complete command on the wire: its text, 1 to 510 ordinary bytes, and
    the run of terminators that ends it. *)
Definition complete_line (l : list Z * list Z) : Prop :=
  Forall plain l.1 /\ (0 < length l.1 <= 510)%nat /\
  l.2 <> [] /\ Forall terminator l.2.

Definition wire (lines : list (list Z * list Z)) : list Z :=
  concat ((fun l => l.1 ++ l.2) <$> lines).

Definition apply_lines (lines : list (list Z * list Z)) (st : State) : State :=
  fold_left (fun s l => apply_command (char_of_byte <$> l.1) s) lines st.

Definition reads (tr : list Event) : list Z :=
  omap (fun e => match e with EvRead b => Some b | _ => None end) tr.

Definition shows (tr : list Event) : list (list CRGB) :=
  omap (fun e => match e with EvShow f => Some f | _ => None end) tr.

Definition digit_step (acc c : Z) : Z := acc * 10 + (c - ch "0").

Definition digits_value (ds : list Z) : Z := fold_left digit_step ds 0.

Inductive sign_chars : bool -> cstring -> Prop :=
  | sign_none : sign_chars false []
  | sign_plus : sign_chars false [ch "+"]
  | sign_minus : sign_chars true [ch "-"].

(** [<int>] with standard integer parsing: optional white space, an optional
    sign, one or more decimal digits; [v] is its value as an [int]. *)
Definition int_token (t : cstring) (v : Z) : Prop :=
  exists ws neg sg ds,
    t = ws ++ sg ++ ds /\
    Forall (fun c => isspace c = true) ws /\
    sign_chars neg sg /\
    ds <> [] /\ Forall (fun c => isdigit c = true) ds /\
    v = wrap16 (if neg then - digits_value ds else digits_value ds).

(** The text after a number does not continue its digits. *)
Definition no_digit_head (s : cstring) : Prop :=
  match s with
  | [] => True
  | c :: _ => isdigit c = false
  end.

(** A line that begins with [<int>,<int>,<int>], yielding the integers [r],
    [g], [b]: the text [rest] after the third integer is arbitrary, it only
    does not continue that integer's digits. *)
Definition single_color_shape (line : cstring) (r g b : Z) : Prop :=
  exists t1 t2 t3 rest,
    int_token t1 r /\ int_token t2 g /\ int_token t3 b /\
    no_digit_head rest /\
    line = t1 ++ ch "," :: t2 ++ ch "," :: t3 ++ rest.

(** A line that is exactly [<int>,<int>,<int>], with nothing after the third
    integer. *)
Definition exact_single_color_shape (line : cstring) (r g b : Z) : Prop :=
  exists t1 t2 t3,
    int_token t1 r /\ int_token t2 g /\ int_token t3 b /\
    line = t1 ++ ch "," :: t2 ++ ch "," :: t3.

(** A palette line with the largest count: 49 colours, each followed by a
    separator. *)
Definition max_palette_line : cstring :=
  of_string "P:49:" ++ concat (replicate 49 (of_string "FF8040:")).

(** The decimal numeral of a non-negative integer, most significant digit
    first. *)
Fixpoint decimal_aux (fuel : nat) (n : Z) (acc : cstring) : cstring :=
  match fuel with
  | O => acc
  | S fuel' =>
      let acc' := (ch "0" + n mod 10) :: acc in
      if n <? 10 then acc' else decimal_aux fuel' (n / 10) acc'
  end.

Definition decimal (n : Z) : cstring := decimal_aux (S (Z.to_nat n)) n [].

(** The text of the command [r,g,b]. *)
Definition flat_command (r g b : Z) : cstring :=
  decimal r ++ ch "," :: decimal g ++ ch "," :: decimal b.

Definition red_green_line : cstring := of_string "P:2:FF0000:00FF00".
Definition truncated_line : cstring := of_string "P:2:0000FF:12".

Definition three_colour_state : State :=
  parsePalette (of_string "P:3:FF0000:00FF00:0000FF") initial.

(** ** Further reference functions *)

(** The character of one hexadecimal digit [v] (0..15), in upper or lower
    case. *)
Definition hex_char (upper : bool) (v : Z) : Z :=
  if v <? 10 then ch "0" + v
  else (if upper then ch "A" else ch "a") + (v - 10).

(** The two hexadecimal digits of a byte. *)
Definition hex_byte (upper : bool) (b : Z) : cstring :=
  [hex_char upper (b / 16); hex_char upper (b mod 16)].

(** The part of the state the framer and the parsers read or write, apart
    from the needs-render flag: everything but [needsUpdate] and [leds]. *)
Definition same_parser_state (st st' : State) : Prop :=
  paletteMode st' = paletteMode st /\ paletteSize st' = paletteSize st /\
  paletteR st' = paletteR st /\ paletteG st' = paletteG st /\
  paletteB st' = paletteB st /\
  currentR st' = currentR st /\ currentG st' = currentG st /\
  currentB st' = currentB st /\
  inputBuffer st' = inputBuffer st /\ bufferPos st' = bufferPos st.

(** [st'] has the parser state of [st] and a render pending whenever [st]
    has one. *)
Definition follows (st st' : State) : Prop :=
  same_parser_state st st' /\ (needsUpdate st = true -> needsUpdate st' = true).

(** One colour of a palette command as it is written on the wire: three
    bytes, and whether a [:] follows its six hexadecimal digits. *)
Record Entry := { e_r : Z; e_g : Z; e_b : Z; e_sep : bool }.

Definition entry_ok (e : Entry) : Prop :=
  channel (e_r e) /\ channel (e_g e) /\ channel (e_b e).

Fixpoint entries_text (upper : bool) (es : list Entry) : cstring :=
  match es with
  | [] => []
  | e :: es' =>
      hex_byte upper (e_r e) ++ hex_byte upper (e_g e) ++ hex_byte upper (e_b e)
      ++ (if e_sep e then [ch ":"] else []) ++ entries_text upper es'
  end.

(** The text [P:<n>:<hex6>...] for the colours [es], followed by [trail]. *)
Definition palette_command (upper : bool) (es : list Entry) (trail : cstring)
  : cstring :=
  ch "P" :: ch ":" :: decimal (Z.of_nat (length es))
    ++ ch ":" :: entries_text upper es ++ trail.

(** A printable ASCII character. *)
Definition printable (c : Z) : Prop := 32 < c < 127.

Definition sample_entries : list Entry :=
  [ {| e_r := 255; e_g := 0; e_b := 0; e_sep := true |};
    {| e_r := 0; e_g := 255; e_b := 0; e_sep := false |};
    {| e_r := 18; e_g := 52; e_b := 86; e_sep := false |} ].

(** * Proofs *)

(** ** Arithmetic helpers *)

Ltac split_bools :=
  repeat match goal with
  | |- context [?a <=? ?b] => destruct (Z.leb_spec a b)
  | |- context [?a <? ?b] => destruct (Z.ltb_spec a b)
  | |- context [?a =? ?b] => destruct (Z.eqb_spec a b)
  end; cbn [andb orb negb].

Lemma lor_nibbles (a b : Z) :
  0 <= a < 16 -> 0 <= b < 16 -> Z.lor (Z.shiftl a 4) b = 16 * a + b.
Proof.
  intros Ha Hb.
  assert (Hbits : forall x, 0 <= x < 16 ->
            x = 0 \/ x = 1 \/ x = 2 \/ x = 3 \/ x = 4 \/ x = 5 \/ x = 6 \/ x = 7 \/
            x = 8 \/ x = 9 \/ x = 10 \/ x = 11 \/ x = 12 \/ x = 13 \/ x = 14 \/
            x = 15) by (intros; lia).
  destruct (Hbits a Ha) as [->|[->|[->|[->|[->|[->|[->|[->|[->|[->|[->|[->|[->|[->|[->| ->]]]]]]]]]]]]]]];
  destruct (Hbits b Hb) as [->|[->|[->|[->|[->|[->|[->|[->|[->|[->|[->|[->|[->|[->|[->| ->]]]]]]]]]]]]]]];
  reflexivity.
Qed.

Lemma hex_digit_value_range (c v : Z) :
  hex_digit_value c = Some v -> 0 <= v < 16.
Proof.
  unfold hex_digit_value. norm_ch. split_bools; intros [= <-]; lia.
Qed.

Lemma lenient_nibble_range (c : Z) : 0 <= lenient_nibble c < 16.
Proof.
  unfold lenient_nibble. destruct (hex_digit_value c) eqn:E; cbn; [|lia].
  eapply hex_digit_value_range; eauto.
Qed.

Lemma hexToByte_nibbles (hi lo : Z) :
  hexToByte hi lo = 16 * lenient_nibble hi + lenient_nibble lo.
Proof.
  pose proof (lenient_nibble_range hi) as Hh.
  pose proof (lenient_nibble_range lo) as Hl.
  rewrite <- (lor_nibbles _ _ Hh Hl). clear Hh Hl.
  unfold hexToByte, lenient_nibble, hex_digit_value. norm_ch.
  split_bools; try lia; cbn [default from_option id];
    rewrite ?Z.shiftl_0_l, ?Z.lor_0_r, ?Z.lor_0_l; reflexivity.
Qed.

Lemma hexToByte_range (hi lo : Z) : 0 <= hexToByte hi lo <= 255.
Proof.
  rewrite hexToByte_nibbles.
  pose proof (lenient_nibble_range hi). pose proof (lenient_nibble_range lo). lia.
Qed.

(** A property checked on every value of 0..255 holds on the whole range. *)
Lemma forall_byte (P : Z -> bool) :
  forallb P (seqZ 0 256) = true -> forall v, 0 <= v <= 255 -> P v = true.
Proof.
  intros H v Hv. rewrite forallb_forall in H. apply H.
  apply list_elem_of_In, elem_of_seqZ. lia.
Qed.

(** The three factors as binary32 numbers: 1 and 0.75 are exact, 0.90 is
    rounded to 15099494 * 2^-24. *)
Lemma factor_bits :
  RED_FACTOR = S754_finite false 8388608 (-23) /\
  GREEN_FACTOR = S754_finite false 12582912 (-24) /\
  BLUE_FACTOR = S754_finite false 15099494 (-24).
Proof. repeat split; vm_compute; reflexivity. Qed.

(** The binary32 products, truncated, agree with exact integer arithmetic on
    every channel value. *)
Lemma calibrate_exact (v : Z) :
  0 <= v <= 255 ->
  calibrate v RED_FACTOR = v /\
  calibrate v GREEN_FACTOR = v * 3 / 4 /\
  calibrate v BLUE_FACTOR = v * 9 / 10.
Proof.
  intros Hv.
  pose proof (forall_byte
    (fun v => (calibrate v RED_FACTOR =? v) &&
              (calibrate v GREEN_FACTOR =? v * 3 / 4) &&
              (calibrate v BLUE_FACTOR =? v * 9 / 10))) as H.
  specialize (H ltac:(vm_compute; reflexivity) v Hv). cbv beta in H.
  apply andb_prop in H as [H H3]. apply andb_prop in H as [H1 H2].
  apply Z.eqb_eq in H1, H2, H3. auto.
Qed.

Lemma calibrate_channel (v : Z) :
  channel v ->
  channel (calibrate v RED_FACTOR) /\ channel (calibrate v GREEN_FACTOR) /\
  channel (calibrate v BLUE_FACTOR).
Proof.
  unfold channel. intros Hv.
  destruct (calibrate_exact v Hv) as (-> & -> & ->).
  repeat split; try lia.
  - apply Z.div_pos; lia.
  - apply Z.div_le_upper_bound; lia.
  - apply Z.div_pos; lia.
  - apply Z.div_le_upper_bound; lia.
Qed.

Lemma constrain_channel (x : Z) : channel (constrain x 0 255).
Proof. unfold channel, constrain. split_bools; lia. Qed.

Lemma constrain_id (x : Z) : channel x -> constrain x 0 255 = x.
Proof. unfold channel, constrain. split_bools; lia. Qed.

(** ** hexToByte *)

Lemma lenient_nibble_to_lower (c : Z) :
  lenient_nibble (to_lower c) = lenient_nibble c.
Proof.
  unfold to_lower. norm_ch.
  destruct (Z.leb_spec 65 c), (Z.leb_spec c 90); cbn [andb];
    unfold lenient_nibble, hex_digit_value; norm_ch;
    split_bools; cbn [default from_option id]; lia.
Qed.

(** C8: hex decoding of a 2-character group is total and case-insensitive:
    for every pair of characters [hexToByte] returns a value in 0..255, namely
    16 times the value of the first digit plus the value of the second, where
    '0'-'9', 'A'-'F' and 'a'-'f' have their hexadecimal values and every other
    character contributes a zero nibble; no input is an error. *)
Theorem hexToByte_total_lenient (hi lo : Z) :
  0 <= hexToByte hi lo <= 255 /\
  hexToByte hi lo = 16 * lenient_nibble hi + lenient_nibble lo /\
  hexToByte (to_lower hi) (to_lower lo) = hexToByte hi lo /\
  (hex_digit_value hi = None -> hexToByte hi lo = lenient_nibble lo) /\
  (hex_digit_value lo = None -> hexToByte hi lo = 16 * lenient_nibble hi).
Proof.
  split; [apply hexToByte_range|].
  split; [apply hexToByte_nibbles|].
  rewrite !hexToByte_nibbles, !lenient_nibble_to_lower.
  split; [reflexivity|].
  unfold lenient_nibble.
  split; intros ->; cbn [default from_option id]; lia.
Qed.

(** ** Well-formed states *)

Lemma wf_initial : wf initial.
Proof. split; cbn; rewrite ?length_replicate; unfold MAX_PALETTE; lia. Qed.

Lemma channels_ok_initial : channels_ok initial.
Proof.
  split; cbn; try (unfold channel; lia);
    apply Forall_replicate; unfold channel; lia.
Qed.

Lemma Forall_insert_channel (l : list Z) (i : nat) (v : Z) :
  Forall channel l -> channel v -> Forall channel (<[i := v]> l).
Proof. intros Hl Hv. apply Forall_insert; assumption. Qed.

Lemma parsePalette_loop_inv (cnt : nat) :
  forall i ptr st st' fin,
    parsePalette_loop cnt i ptr st = (st', fin) ->
    same_scalars st st' /\
    (wf st -> wf st') /\
    (channels_ok st -> channels_ok st').
Proof.
  induction cnt as [|cnt IH]; intros i ptr st st' fin; cbn [parsePalette_loop].
  - intros [= <- <-]. unfold same_scalars. tauto.
  - destruct (strlen ptr <? 6).
    + intros [= <- <-]. unfold same_scalars. tauto.
    + intros H. apply IH in H as (Hs & Hw & Hc). clear IH.
      split; [exact Hs|]. split; intros H0; [apply Hw | apply Hc]; clear Hw Hc.
      * destruct H0. split; cbn; rewrite ?length_insert; assumption.
      * destruct H0. 
        pose proof (hexToByte_range (at_ ptr 0) (at_ ptr 1)) as H1.
        pose proof (hexToByte_range (at_ ptr 2) (at_ ptr 3)) as H2.
        pose proof (hexToByte_range (at_ ptr 4) (at_ ptr 5)) as H3.
        apply calibrate_channel in H1 as (H1 & _ & _).
        apply calibrate_channel in H2 as (_ & H2 & _).
        apply calibrate_channel in H3 as (_ & _ & H3).
        split; cbn; try assumption; apply Forall_insert_channel; assumption.
Qed.

(** ** The parsers keep states well formed *)

Lemma parsePalette_wf (data : cstring) (st : State) :
  wf st -> wf (parsePalette data st).
Proof.
  intros Hwf. unfold parsePalette.
  destruct (Z.ltb_spec (atoi (drop 2 data)) 1); cbn [orb]; [assumption|].
  destruct (Z.ltb_spec MAX_PALETTE (atoi (drop 2 data))); [assumption|].
  destruct (strchr _ _) as [ptr|]; [|assumption].
  destruct (parsePalette_loop _ _ _ _) as [st' fin] eqn:E.
  apply parsePalette_loop_inv in E as (_ & Hw & _). specialize (Hw Hwf).
  destruct fin; [|assumption].
  destruct Hw. split; cbn; try assumption. lia.
Qed.

Lemma parsePalette_channels_ok (data : cstring) (st : State) :
  channels_ok st -> channels_ok (parsePalette data st).
Proof.
  intros Hok. unfold parsePalette.
  destruct ((_ <? _) || (_ <? _)); [assumption|].
  destruct (strchr _ _) as [ptr|]; [|assumption].
  destruct (parsePalette_loop _ _ _ _) as [st' fin] eqn:E.
  apply parsePalette_loop_inv in E as (_ & _ & Hc). specialize (Hc Hok).
  destruct fin; [|assumption].
  destruct Hc. split; cbn; assumption.
Qed.

Lemma parseSingle_wf (data : cstring) (st : State) :
  wf st -> wf (parseSingle data st).
Proof.
  intros Hwf. unfold parseSingle.
  destruct (sscanf_d_d_d data) as [count [[r g] b]].
  destruct (count =? 3); [|assumption].
  destruct Hwf. split; cbn; assumption.
Qed.

Lemma parseSingle_channels_ok (data : cstring) (st : State) :
  channels_ok st -> channels_ok (parseSingle data st).
Proof.
  intros Hok. unfold parseSingle.
  destruct (sscanf_d_d_d data) as [count [[r g] b]].
  destruct (count =? 3); [|assumption].
  destruct (calibrate_channel _ (constrain_channel r)) as (Hr & _ & _).
  destruct (calibrate_channel _ (constrain_channel g)) as (_ & Hg & _).
  destruct (calibrate_channel _ (constrain_channel b)) as (_ & _ & Hb).
  destruct Hok. split; cbn; assumption.
Qed.

Lemma put_char_wf (c pos' : Z) (st : State) :
  wf st -> 0 <= pos' <= 510 -> wf (put_char c pos' st).
Proof.
  intros [] Hpos. split; cbn; rewrite ?length_insert; assumption.
Qed.

Lemma set_bufferPos_wf (pos' : Z) (st : State) :
  wf st -> 0 <= pos' <= 510 -> wf (set_bufferPos pos' st).
Proof. intros [] Hpos. split; cbn; assumption. Qed.

Lemma dispatch_wf (st : State) : wf st -> wf (dispatch st).
Proof.
  intros Hwf. unfold dispatch.
  assert (wf (put_char 0 (bufferPos st) st))
    by (apply put_char_wf; [assumption | apply Hwf]).
  destruct (_ && _); [apply parsePalette_wf | apply parseSingle_wf]; assumption.
Qed.

Lemma dispatch_channels_ok (st : State) :
  channels_ok st -> channels_ok (dispatch st).
Proof.
  intros Hok. unfold dispatch.
  assert (channels_ok (put_char 0 (bufferPos st) st))
    by (destruct Hok; split; cbn; assumption).
  destruct (_ && _);
    [apply parsePalette_channels_ok | apply parseSingle_channels_ok]; assumption.
Qed.

Lemma framer_char_wf (c : Z) (st : State) :
  wf st -> wf (fst (framer_char c st)).
Proof.
  intros Hwf. unfold framer_char.
  destruct ((c =? LF) || (c =? CR)).
  - destruct (0 <? bufferPos st); cbn [fst];
      apply set_bufferPos_wf; try lia; auto using dispatch_wf.
  - destruct (Z.ltb_spec (bufferPos st) 510); cbn [fst]; [|assumption].
    apply put_char_wf; [assumption|]. destruct Hwf. lia.
Qed.

Lemma framer_char_channels_ok (c : Z) (st : State) :
  channels_ok st -> channels_ok (fst (framer_char c st)).
Proof.
  intros Hok. unfold framer_char.
  destruct ((c =? LF) || (c =? CR)).
  - destruct (0 <? bufferPos st); cbn [fst].
    + apply dispatch_channels_ok in Hok. destruct Hok. split; cbn; assumption.
    + destruct Hok. split; cbn; assumption.
  - destruct (bufferPos st <? 510); cbn [fst]; [|assumption].
    destruct Hok. split; cbn; assumption.
Qed.

Lemma drain_wf (serial : list Z) :
  forall st, wf st -> wf (fst (drain serial st)).
Proof.
  induction serial as [|byte serial IH]; intros st Hwf; cbn [drain fst]; [assumption|].
  pose proof (framer_char_wf (char_of_byte byte) st Hwf) as H1.
  destruct (framer_char _ st) as [st1 ev]. cbn [fst] in H1.
  specialize (IH st1 H1). destruct (drain serial st1) as [st2 evs]. exact IH.
Qed.

Lemma drain_channels_ok (serial : list Z) :
  forall st, channels_ok st -> channels_ok (fst (drain serial st)).
Proof.
  induction serial as [|byte serial IH]; intros st Hok; cbn [drain fst]; [assumption|].
  pose proof (framer_char_channels_ok (char_of_byte byte) st Hok) as H1.
  destruct (framer_char _ st) as [st1 ev]. cbn [fst] in H1.
  specialize (IH st1 H1). destruct (drain serial st1) as [st2 evs]. exact IH.
Qed.

(** ** The render step *)

Lemma set_leds_same (st : State) : set_leds (leds st) st = st.
Proof. destruct st; reflexivity. Qed.

Lemma array_get_nth {A} (a : list A) (i : Z) (d : A) :
  0 <= i < Z.of_nat (length a) -> array_get a i = Some (nth (Z.to_nat i) a d).
Proof.
  intros Hi. unfold array_get.
  destruct (Z.ltb_spec i 0); [lia|].
  destruct (nth_lookup_or_length a (Z.to_nat i) d) as [->|]; [reflexivity | lia].
Qed.

(** A counting loop whose body stores [px j] at [leds[j]] and changes nothing
    else fills the array from left to right. *)
Lemma for_loop_fill (st0 : State) (px : Z -> CRGB)
    (body : Z -> State -> option State) (len : nat) :
  (forall j l, 0 <= j < Z.of_nat len -> length l = len ->
     body j (set_leds l st0) = Some (set_leds (<[Z.to_nat j := px j]> l) st0)) ->
  forall cnt k rest,
    length rest = cnt -> (k + cnt = len)%nat ->
    for_loop cnt (Z.of_nat k) body
      (set_leds ((px <$> seqZ 0 (Z.of_nat k)) ++ rest) st0)
    = Some (set_leds (px <$> seqZ 0 (Z.of_nat (k + cnt))) st0).
Proof.
  intros Hbody. induction cnt as [|cnt IH]; intros k rest Hrest Hlen.
  - destruct rest; [|discriminate]. rewrite app_nil_r, Nat.add_0_r. reflexivity.
  - destruct rest as [|x rest]; [discriminate|]. cbn [for_loop].
    rewrite Hbody; cycle 1.
    { lia. }
    { rewrite length_app, length_fmap, length_seqZ. cbn [length] in *. lia. }
    cbn [mbind option_bind].
    replace (Z.of_nat k + 1) with (Z.of_nat (S k)) by lia.
    rewrite Nat2Z.id.
    rewrite insert_app_r_alt by (rewrite length_fmap, length_seqZ; lia).
    rewrite length_fmap, length_seqZ, Nat2Z.id, Nat.sub_diag. cbn [insert list_insert].
    replace (k + S cnt)%nat with (S k + cnt)%nat by lia.
    rewrite <- (IH (S k) rest) by (cbn [length] in *; lia).
    rewrite seqZ_S, fmap_app, <- app_assoc. reflexivity.
Qed.

Lemma ledsPerBlock_pos (n : Z) :
  1 <= n <= MAX_PALETTE -> 1 <= Z.quot NUM_LEDS n.
Proof.
  unfold MAX_PALETTE, NUM_LEDS. intros Hn.
  rewrite Z.quot_div_nonneg by lia. apply Z.div_le_lower_bound; lia.
Qed.

(** On a well-formed state the compositor reads and writes inside its arrays,
    never divides by zero, and overwrites the whole frame buffer. *)
Lemma composite_spec (st : State) :
  wf st ->
  composite st = Some (set_leds (pixel st <$> seqZ 0 NUM_LEDS) st).
Proof.
  intros Hwf.
  assert (Hfill : forall body,
    (forall j l, 0 <= j < Z.of_nat (Z.to_nat NUM_LEDS) ->
       length l = Z.to_nat NUM_LEDS ->
       body j (set_leds l st)
       = Some (set_leds (<[Z.to_nat j := pixel st j]> l) st)) ->
    for_loop (Z.to_nat NUM_LEDS) 0 body st
    = Some (set_leds (pixel st <$> seqZ 0 NUM_LEDS) st)).
  { intros body Hbody.
    pose proof (for_loop_fill st (pixel st) body _ Hbody
                  (Z.to_nat NUM_LEDS) 0%nat (leds st) (wf_leds _ Hwf) eq_refl) as H.
    assert (E : set_leds ((pixel st <$> seqZ 0 (Z.of_nat 0)) ++ leds st) st = st)
      by apply set_leds_same.
    rewrite E in H. exact H. }
  unfold composite.
  destruct (paletteMode st && (0 <? paletteSize st)) eqn:Hmode.
  - pose proof Hmode as Hsz.
    apply andb_prop in Hsz as [_ Hsz]. apply Z.ltb_lt in Hsz.
    pose proof (wf_paletteSize _ Hwf) as Hmax.
    pose proof (ledsPerBlock_pos (paletteSize st) ltac:(lia)) as Hlpb.
    unfold c_div at 1.
    destruct (Z.eqb_spec (paletteSize st) 0); [lia|]. cbn [mbind option_bind].
    apply Hfill. intros j l Hj Hl.
    unfold pixel, palette_pixel, c_div. rewrite Hmode.
    destruct (Z.eqb_spec (Z.quot NUM_LEDS (paletteSize st)) 0); [lia|].
    cbn [mbind option_bind paletteSize paletteR paletteG paletteB leds set_leds].
    set (q := Z.quot j (Z.quot NUM_LEDS (paletteSize st))).
    assert (0 <= q) by (apply Z.quot_pos; lia).
    set (idx := if paletteSize st <=? q then paletteSize st - 1 else q).
    assert (0 <= idx < MAX_PALETTE)
      by (subst idx; destruct (Z.leb_spec (paletteSize st) q); lia).
    rewrite (array_get_nth (paletteR st) idx 0)
      by (rewrite (wf_paletteR _ Hwf); lia).
    rewrite (array_get_nth (paletteG st) idx 0)
      by (rewrite (wf_paletteG _ Hwf); lia).
    rewrite (array_get_nth (paletteB st) idx 0)
      by (rewrite (wf_paletteB _ Hwf); lia).
    rewrite (array_get_nth l j (CRGB_of 0 0 0)) by lia.
    reflexivity.
  - apply Hfill. intros j l Hj Hl. unfold pixel, flat_pixel. rewrite Hmode.
    cbn [mbind option_bind leds set_leds currentR currentG currentB].
    rewrite (array_get_nth l j (CRGB_of 0 0 0)) by lia.
    reflexivity.
Qed.

Lemma render_spec (st : State) :
  wf st ->
  render st =
  Some (if needsUpdate st
        then (set_needsUpdate false (set_leds (frame_of st) st), [EvShow (frame_of st)])
        else (st, [])).
Proof.
  intros Hwf. unfold render. destruct (needsUpdate st); [|reflexivity].
  rewrite (composite_spec st Hwf). reflexivity.
Qed.

Lemma loop_spec (serial : list Z) (st : State) :
  wf st ->
  loop serial st =
  let st1 := fst (drain serial st) in
  let tr1 := snd (drain serial st) in
  Some (if needsUpdate st1
        then (set_needsUpdate false (set_leds (frame_of st1) st1),
              tr1 ++ [EvPin13 false; EvShow (frame_of st1)])
        else (st1, tr1 ++ [EvPin13 false])).
Proof.
  intros Hwf. unfold loop.
  pose proof (drain_wf serial st Hwf) as Hwf1.
  destruct (drain serial st) as [st1 tr1]. cbn [fst snd] in *.
  rewrite (render_spec st1 Hwf1).
  destruct (needsUpdate st1); reflexivity.
Qed.

Lemma render_wf (st st' : State) (tr : list Event) :
  wf st -> render st = Some (st', tr) -> wf st'.
Proof.
  intros Hwf. rewrite (render_spec st Hwf).
  destruct (needsUpdate st); intros [= <- <-]; [|assumption].
  destruct Hwf. split; cbn; try assumption.
  unfold frame_of. rewrite length_fmap, length_seqZ. reflexivity.
Qed.

Lemma loop_wf (serial : list Z) (st st' : State) (tr : list Event) :
  wf st -> loop serial st = Some (st', tr) -> wf st'.
Proof.
  intros Hwf. unfold loop.
  pose proof (drain_wf serial st Hwf) as Hwf1.
  destruct (drain serial st) as [st1 tr1]. cbn [fst] in Hwf1.
  destruct (render st1) as [[st2 tr2]|] eqn:E; cbn; [|discriminate].
  intros [= <- <-]. eapply render_wf; eassumption.
Qed.

Lemma loop_channels_ok (serial : list Z) (st st' : State) (tr : list Event) :
  wf st -> channels_ok st -> loop serial st = Some (st', tr) -> channels_ok st'.
Proof.
  intros Hwf Hok. rewrite (loop_spec serial st Hwf). cbv zeta.
  pose proof (drain_channels_ok serial st Hok) as Hok1.
  destruct (needsUpdate _); intros [= <- <-]; [|assumption].
  destruct Hok1. split; cbn; assumption.
Qed.

Lemma reachable_wf (st : State) : reachable st -> wf st.
Proof.
  induction 1 as [|st serial st' tr _ IH Hloop]; [apply wf_initial|].
  eapply loop_wf; eassumption.
Qed.

Lemma reachable_channels_ok (st : State) : reachable st -> channels_ok st.
Proof.
  induction 1 as [|st serial st' tr Hr IH Hloop]; [apply channels_ok_initial|].
  eapply loop_channels_ok; eauto using reachable_wf.
Qed.

(** ** Palette commands with a count out of range *)

(** C7: a palette command whose count field converts to a value [n] with
    [n < 1] or [n > MAX_PALETTE] changes nothing: mode, palette size, every
    palette entry, the flat colour and the needs-render flag (the whole state)
    are exactly as before. *)
Theorem parsePalette_bad_count_untouched (data : cstring) (st : State) :
  atoi (drop 2 data) < 1 \/ MAX_PALETTE < atoi (drop 2 data) ->
  parsePalette data st = st.
Proof.
  intros Hn. unfold parsePalette.
  destruct (Z.ltb_spec (atoi (drop 2 data)) 1); [reflexivity|].
  destruct (Z.ltb_spec MAX_PALETTE (atoi (drop 2 data))); [reflexivity|].
  lia.
Qed.

Lemma parsePalette_bad_count_untouched_witness :
  (atoi (drop 2 (of_string "P:50:FF0000")) < 1 \/
   MAX_PALETTE < atoi (drop 2 (of_string "P:50:FF0000"))) /\
  parsePalette (of_string "P:50:FF0000") initial = initial.
Proof.
  assert (H : atoi (drop 2 (of_string "P:50:FF0000")) < 1 \/
              MAX_PALETTE < atoi (drop 2 (of_string "P:50:FF0000")))
    by (right; vm_compute; reflexivity).
  split; [exact H|].
  exact (parsePalette_bad_count_untouched (of_string "P:50:FF0000") initial H).
Defined.

(** ** The line buffer *)

(** C5, as stated, fails: with 510 characters buffered the length is
    strictly below capacity minus one (511), and yet the next ordinary
    character is dropped. *)
Lemma framer_drops_below_capacity_minus_one :
  reachable full_line_state /\
  bufferPos full_line_state < INPUT_BUFFER_SIZE - 1 /\
  ch "a" <> LF /\ ch "a" <> CR /\
  ~ appended (ch "a") full_line_state (fst (framer_char (ch "a") full_line_state)).
Proof.
  split.
  { apply (reach_loop initial (replicate 510 (ch "a")) _
             (snd (drain (replicate 510 (ch "a")) initial) ++ [EvPin13 false])).
    - apply reach_initial.
    - vm_compute. reflexivity. }
  split; [vm_compute; reflexivity|].
  split; [vm_compute; discriminate|].
  split; [vm_compute; discriminate|].
  intros [_ H]. vm_compute in H. discriminate.
Qed.

(** C5 (amended): for every character other than a line terminator the
    framer appends it if and only if the buffer holds fewer than 510
    characters (capacity minus two); otherwise the character is dropped and
    the state is unchanged; a terminator empties the buffer.  The length
    therefore never exceeds 510, hence never exceeds capacity minus one. *)
Theorem framer_appends_iff_below_510 (c : Z) (st : State) :
  wf st ->
  let st' := fst (framer_char c st) in
  (c <> LF -> c <> CR ->
     (appended c st st' <-> bufferPos st < 510) /\
     (~ bufferPos st < 510 -> st' = st)) /\
  (c = LF \/ c = CR -> bufferPos st' = 0) /\
  0 <= bufferPos st' <= 510 /\
  bufferPos st' <= INPUT_BUFFER_SIZE - 1.
Proof.
  intros Hwf st'.
  pose proof (wf_bufferPos _ (framer_char_wf c st Hwf)) as Hpos'.
  fold st' in Hpos'.
  split; [|split; [|split; [exact Hpos' | unfold INPUT_BUFFER_SIZE; lia]]].
  - intros Hlf Hcr. subst st'. unfold framer_char.
    destruct (Z.eqb_spec c LF); [contradiction|].
    destruct (Z.eqb_spec c CR); [contradiction|]. cbn [orb].
    destruct (Z.ltb_spec (bufferPos st) 510); cbn [fst].
    + split; [|lia]. split; [intros _; assumption|]. intros _.
      split; reflexivity.
    + split; [|reflexivity]. split; [|lia]. intros [_ H']. lia.
  - intros Hterm. subst st'. unfold framer_char.
    replace ((c =? LF) || (c =? CR)) with true
      by (destruct Hterm as [-> | ->]; reflexivity).
    destruct (0 <? bufferPos st); reflexivity.
Qed.

Lemma framer_appends_iff_below_510_witness :
  wf initial /\
  let st' := fst (framer_char (ch "a") initial) in
  (ch "a" <> LF -> ch "a" <> CR ->
     (appended (ch "a") initial st' <-> bufferPos initial < 510) /\
     (~ bufferPos initial < 510 -> st' = initial)) /\
  (ch "a" = LF \/ ch "a" = CR -> bufferPos st' = 0) /\
  0 <= bufferPos st' <= 510 /\
  bufferPos st' <= INPUT_BUFFER_SIZE - 1.
Proof.
  split; [exact wf_initial|].
  exact (framer_appends_iff_below_510 (ch "a") initial wf_initial).
Defined.

(** ** Safety of the render step *)

(** Without the bound on the palette size the block length would be zero and
    the per-pixel division undefined: the checked model does detect it. *)
Example composite_undefined_for_oversized_palette :
  composite {| paletteMode := true; paletteSize := 300;
               paletteR := paletteR initial; paletteG := paletteG initial;
               paletteB := paletteB initial;
               currentR := 0; currentG := 0; currentB := 0; needsUpdate := true;
               inputBuffer := inputBuffer initial; bufferPos := 0;
               leds := leds initial |} = None.
Proof. vm_compute. reflexivity. Qed.

(** C9: in every reachable state, whatever the serial input of the next
    pass, the render step is defined: the palette branch is taken only when
    [paletteSize > 0], there [ledsPerBlock = NUM_LEDS / paletteSize >= 1]
    because [paletteSize <= MAX_PALETTE <= NUM_LEDS], so neither division has
    a zero divisor, and the compositor and the whole pass return a result. *)
Theorem render_divisions_safe (st : State) (serial : list Z) :
  reachable st ->
  let st1 := fst (drain serial st) in
  MAX_PALETTE <= NUM_LEDS /\
  (paletteMode st1 && (0 <? paletteSize st1) = true ->
     0 < paletteSize st1 <= MAX_PALETTE /\
     is_Some (c_div NUM_LEDS (paletteSize st1)) /\
     1 <= Z.quot NUM_LEDS (paletteSize st1) /\
     forall i, is_Some (c_div i (Z.quot NUM_LEDS (paletteSize st1)))) /\
  is_Some (composite st1) /\
  is_Some (loop serial st).
Proof.
  intros Hr st1.
  pose proof (reachable_wf st Hr) as Hwf.
  pose proof (drain_wf serial st Hwf) as Hwf1. fold st1 in Hwf1.
  split; [unfold MAX_PALETTE, NUM_LEDS; lia|].
  split; [|split].
  - intros Hguard. apply andb_prop in Hguard as [_ Hsz]. apply Z.ltb_lt in Hsz.
    pose proof (wf_paletteSize _ Hwf1) as Hmax.
    pose proof (ledsPerBlock_pos (paletteSize st1) ltac:(lia)) as Hlpb.
    split; [lia|]. split; [|split; [exact Hlpb|intros i]]; unfold c_div.
    + destruct (Z.eqb_spec (paletteSize st1) 0); [lia | eexists; reflexivity].
    + destruct (Z.eqb_spec (Z.quot NUM_LEDS (paletteSize st1)) 0);
        [lia | eexists; reflexivity].
  - rewrite (composite_spec st1 Hwf1). eexists; reflexivity.
  - rewrite (loop_spec serial st Hwf). eexists; reflexivity.
Qed.

Lemma render_divisions_safe_witness :
  reachable initial /\
  let st1 := fst (drain (max_palette_line ++ [LF]) initial) in
  paletteMode st1 && (0 <? paletteSize st1) = true /\
  paletteSize st1 = MAX_PALETTE /\
  c_div NUM_LEDS (paletteSize st1) = Some 5 /\
  0 < paletteSize st1 <= MAX_PALETTE /\
  is_Some (c_div NUM_LEDS (paletteSize st1)) /\
  1 <= Z.quot NUM_LEDS (paletteSize st1) /\
  (forall i, is_Some (c_div i (Z.quot NUM_LEDS (paletteSize st1)))) /\
  is_Some (composite st1) /\
  is_Some (loop (max_palette_line ++ [LF]) initial).
Proof.
  split; [exact reach_initial|].
  destruct (render_divisions_safe initial (max_palette_line ++ [LF]) reach_initial)
    as (_ & Hguard & Hcomp & Hloop).
  assert (G : paletteMode (fst (drain (max_palette_line ++ [LF]) initial))
              && (0 <? paletteSize (fst (drain (max_palette_line ++ [LF]) initial)))
              = true) by (vm_compute; reflexivity).
  destruct (Hguard G) as (Hsz & Hdiv & Hlpb & Hpix).
  cbv zeta.
  split; [exact G|].
  split; [vm_compute; reflexivity|].
  split; [vm_compute; reflexivity|].
  split; [exact Hsz|]. split; [exact Hdiv|]. split; [exact Hlpb|].
  split; [exact Hpix|]. split; [exact Hcomp | exact Hloop].
Defined.

(** ** Stored channel values *)

(** C10: every operation keeps all stored channel values ([currentR],
    [currentG], [currentB] and every palette entry) in 0..255: hex decoding
    yields a byte, flat-colour inputs are clamped to a byte, a calibrated byte
    is a byte no larger than the original (no factor exceeds 1 and the product
    is truncated); so both parsers (also when a palette command is abandoned
    half way), the handling of one serial character, the drain and a whole
    pass of [loop] preserve the invariant, which holds initially and hence in
    every reachable state. *)
Theorem channels_stay_bytes (st : State) :
  wf st -> channels_ok st ->
  (forall hi lo, channel (hexToByte hi lo)) /\
  (forall x, channel (constrain x 0 255)) /\
  (forall v, channel v ->
     0 <= calibrate v RED_FACTOR <= v /\ 0 <= calibrate v GREEN_FACTOR <= v /\
     0 <= calibrate v BLUE_FACTOR <= v) /\
  (forall data, channels_ok (parsePalette data st)) /\
  (forall data, channels_ok (parseSingle data st)) /\
  (forall c, channels_ok (fst (framer_char c st))) /\
  (forall serial, channels_ok (fst (drain serial st))) /\
  (forall serial st' tr, loop serial st = Some (st', tr) -> channels_ok st') /\
  channels_ok initial /\
  (forall st', reachable st' -> channels_ok st').
Proof.
  intros Hwf Hok.
  split; [intros; apply hexToByte_range|].
  split; [intros; apply constrain_channel|].
  split.
  { unfold channel. intros v Hv.
    destruct (calibrate_exact v Hv) as (-> & -> & ->).
    repeat split; try lia;
      first [apply Z.div_pos; lia | apply Z.div_le_upper_bound; lia]. }
  split; [intros; apply parsePalette_channels_ok; assumption|].
  split; [intros; apply parseSingle_channels_ok; assumption|].
  split; [intros; apply framer_char_channels_ok; assumption|].
  split; [intros; apply drain_channels_ok; assumption|].
  split; [intros serial st' tr; apply loop_channels_ok; assumption|].
  split; [apply channels_ok_initial | apply reachable_channels_ok].
Qed.

Lemma channels_stay_bytes_witness :
  wf three_colour_state /\ channels_ok three_colour_state /\
  (forall data, channels_ok (parsePalette data three_colour_state)) /\
  (forall serial st' tr,
     loop serial three_colour_state = Some (st', tr) -> channels_ok st').
Proof.
  assert (Hwf : wf three_colour_state) by (apply parsePalette_wf, wf_initial).
  assert (Hok : channels_ok three_colour_state)
    by (apply parsePalette_channels_ok, channels_ok_initial).
  destruct (channels_stay_bytes three_colour_state Hwf Hok)
    as (_ & _ & _ & Hp & _ & _ & _ & Hl & _).
  auto.
Defined.

(** ** Palette blocks *)

Lemma pixel_palette (st : State) (i : Z) :
  paletteMode st = true -> 1 <= paletteSize st <= MAX_PALETTE ->
  0 <= i ->
  pixel st i = palette_entry st (block_index (paletteSize st) i).
Proof.
  intros Hmode Hn Hi. unfold pixel, palette_entry, block_index.
  rewrite Hmode. destruct (Z.ltb_spec 0 (paletteSize st)); [|lia]. cbn [andb].
  pose proof (ledsPerBlock_pos _ Hn) as Hlpb.
  rewrite (Z.quot_div_nonneg NUM_LEDS) in * by (unfold NUM_LEDS; lia).
  rewrite Z.quot_div_nonneg by lia.
  destruct (Z.leb_spec (paletteSize st) (i / (NUM_LEDS / paletteSize st)));
    [rewrite Z.min_r by lia | rewrite Z.min_l by lia]; reflexivity.
Qed.

Lemma block_index_blocks (n i : Z) :
  1 <= n <= MAX_PALETTE -> 0 <= i < NUM_LEDS ->
  let bs := NUM_LEDS / n in
  0 <= block_index n i < n /\
  (forall k, 0 <= k < n - 1 ->
     (block_index n i = k <-> k * bs <= i < (k + 1) * bs)) /\
  (block_index n i = n - 1 <-> (n - 1) * bs <= i).
Proof.
  intros Hn Hi bs. unfold block_index. fold bs.
  assert (Hbs : 1 <= bs).
  { pose proof (ledsPerBlock_pos n Hn) as H.
    rewrite Z.quot_div_nonneg in H by (unfold NUM_LEDS; lia). exact H. }
  pose proof (Z.div_mod i bs ltac:(lia)) as Hdm.
  pose proof (Z.mod_pos_bound i bs ltac:(lia)) as Hmb.
  set (q := i / bs) in *.
  assert (0 <= q) by (apply Z.div_pos; lia).
  split; [lia|]. split.
  - intros k Hk. split.
    + intros Hmin. assert (q = k) by lia. subst k. nia.
    + intros Hblk. assert (q = k) by nia. lia.
  - split.
    + intros Hmin. assert (n - 1 <= q) by lia. nia.
    + intros Hblk. assert (n - 1 <= q) by nia. lia.
Qed.

(** C3: for a palette of size [n] in 1..MAX_PALETTE the compositor is
    defined and gives every pixel [i] of the [NUM_LEDS] pixels the palette
    entry with index [min(i / blockSize, n - 1)], [blockSize = NUM_LEDS / n]
    (integer division): block [k < n - 1] is exactly the pixels
    [k * blockSize .. (k + 1) * blockSize - 1], the last block is everything
    from [(n - 1) * blockSize] on and so absorbs the remainder, every block
    starts inside the strip, and no pixel is left unassigned. *)
Theorem palette_blocks (st : State) :
  wf st -> paletteMode st = true -> 1 <= paletteSize st <= MAX_PALETTE ->
  let n := paletteSize st in
  let bs := NUM_LEDS / n in
  exists st',
    composite st = Some st' /\
    length (leds st') = Z.to_nat NUM_LEDS /\
    (forall i, 0 <= i < NUM_LEDS ->
       leds st' !! Z.to_nat i = Some (palette_entry st (block_index n i)) /\
       block_index n i = Z.min (i / bs) (n - 1) /\
       0 <= block_index n i < n /\
       (forall k, 0 <= k < n - 1 ->
          (block_index n i = k <-> k * bs <= i < (k + 1) * bs)) /\
       (block_index n i = n - 1 <-> (n - 1) * bs <= i)) /\
    (forall k, 0 <= k < n -> 0 <= k * bs < NUM_LEDS /\ block_index n (k * bs) = k).
Proof.
  intros Hwf Hmode Hn n bs.
  eexists. split; [apply composite_spec; assumption|].
  cbn [leds set_leds]. split; [rewrite length_fmap, length_seqZ; reflexivity|].
  assert (Hbs : 1 <= bs).
  { pose proof (ledsPerBlock_pos n Hn) as H.
    rewrite Z.quot_div_nonneg in H by (unfold NUM_LEDS; lia). exact H. }
  assert (Hnbs : n * bs <= NUM_LEDS).
  { subst bs. apply Z.mul_div_le. lia. }
  split.
  - intros i Hi.
    split.
    { rewrite list_lookup_fmap, lookup_seqZ_lt by lia. cbn [fmap option_fmap option_map].
      rewrite Z2Nat.id, Z.add_0_l by lia.
      f_equal. apply pixel_palette; [assumption | assumption | lia]. }
    split; [reflexivity|].
    apply block_index_blocks; assumption.
  - intros k Hk.
    assert (Hrange : 0 <= k * bs < NUM_LEDS) by nia.
    split; [exact Hrange|].
    destruct (block_index_blocks n (k * bs) Hn Hrange) as (_ & Hmid & Hlast).
    fold bs in Hmid, Hlast.
    destruct (Z.eq_dec k (n - 1)) as [->|Hne].
    + apply Hlast. lia.
    + apply Hmid; lia.
Qed.

(** ** The drain, line by line *)

Lemma set_input_same (st : State) :
  set_input (inputBuffer st) (bufferPos st) st = st.
Proof. destruct st; reflexivity. Qed.

Lemma set_input_wf (buf : list Z) (pos : Z) (st : State) :
  wf st -> length buf = length (inputBuffer st) -> 0 <= pos <= 510 ->
  wf (set_input buf pos st).
Proof. intros [] Hbuf Hpos. split; cbn; try assumption. congruence. Qed.

Lemma parsePalette_loop_set_input (buf : list Z) (pos : Z) (cnt : nat) :
  forall i ptr st,
    parsePalette_loop cnt i ptr (set_input buf pos st) =
    (set_input buf pos (parsePalette_loop cnt i ptr st).1,
     (parsePalette_loop cnt i ptr st).2).
Proof.
  induction cnt as [|cnt IH]; intros i ptr st; cbn [parsePalette_loop];
    [reflexivity|].
  destruct (strlen ptr <? 6); [reflexivity|].
  match goal with
  | |- parsePalette_loop _ ?i' ?p' (set_palette_entry ?j ?r ?g ?b _) = _ =>
      exact (IH i' p' (set_palette_entry j r g b st))
  end.
Qed.

Lemma parsePalette_set_input (buf : list Z) (pos : Z) (data : cstring) (st : State) :
  parsePalette data (set_input buf pos st) = set_input buf pos (parsePalette data st).
Proof.
  unfold parsePalette.
  destruct ((_ <? _) || (_ <? _)); [reflexivity|].
  destruct (strchr _ _) as [ptr|]; [|reflexivity].
  rewrite parsePalette_loop_set_input.
  destruct (parsePalette_loop _ _ _ st) as [st' fin]. cbn [fst snd].
  destruct fin; reflexivity.
Qed.

Lemma parseSingle_set_input (buf : list Z) (pos : Z) (data : cstring) (st : State) :
  parseSingle data (set_input buf pos st) = set_input buf pos (parseSingle data st).
Proof.
  unfold parseSingle. destruct (sscanf_d_d_d data) as [count [[r g] b]].
  destruct (count =? 3); reflexivity.
Qed.

Lemma apply_command_set_input (buf : list Z) (pos : Z) (line : list Z) (st : State) :
  apply_command line (set_input buf pos st) = set_input buf pos (apply_command line st).
Proof.
  unfold apply_command.
  destruct (_ && _); [apply parsePalette_set_input | apply parseSingle_set_input].
Qed.

Lemma apply_command_wf (line : list Z) (st : State) :
  wf st -> wf (apply_command line st).
Proof.
  intros Hwf. unfold apply_command.
  destruct (_ && _); [apply parsePalette_wf | apply parseSingle_wf]; assumption.
Qed.

Lemma c_str_app_nul (line rest : list Z) :
  c_str (line ++ 0 :: rest) = c_str line.
Proof.
  induction line as [|c line IH]; cbn; [reflexivity|].
  destruct (c =? 0); [reflexivity | f_equal; exact IH].
Qed.

Lemma nth_app_nul (k : nat) (line rest : list Z) :
  (k <= length line)%nat -> nth k (line ++ 0 :: rest) 0 = nth k line 0.
Proof.
  revert k. induction line as [|c line IH]; intros k Hk; cbn in *.
  - destruct k; [reflexivity | lia].
  - destruct k; [reflexivity|]. apply IH. lia.
Qed.

Lemma drain_app (a b : list Z) :
  forall st,
    drain (a ++ b) st =
    ((drain b (drain a st).1).1, (drain a st).2 ++ (drain b (drain a st).1).2).
Proof.
  induction a as [|x a IH]; intros st; cbn [drain app fst snd].
  - destruct (drain b st); reflexivity.
  - destruct (framer_char (char_of_byte x) st) as [st1 ev].
    rewrite IH. destruct (drain a st1) as [st2 evs]. cbn [fst snd].
    destruct (drain b st2) as [st3 evs']. cbn [fst snd].
    cbn [app]. rewrite <- app_assoc. reflexivity.
Qed.

Lemma drain_plain (bytes : list Z) :
  forall st,
    wf st -> Forall plain bytes ->
    bufferPos st + Z.of_nat (length bytes) <= 510 ->
    exists buf',
      drain bytes st =
        (set_input buf' (bufferPos st + Z.of_nat (length bytes)) st,
         EvRead <$> bytes) /\
      length buf' = length (inputBuffer st) /\
      take (Z.to_nat (bufferPos st) + length bytes) buf' =
        take (Z.to_nat (bufferPos st)) (inputBuffer st) ++ (char_of_byte <$> bytes).
Proof.
  induction bytes as [|b bytes IH]; intros st Hwf Hplain Hlen.
  - exists (inputBuffer st). cbn [drain length fmap list_fmap].
    rewrite Z.add_0_r, Nat.add_0_r, app_nil_r, set_input_same. auto.
  - apply Forall_cons in Hplain as [[Hlf Hcr] Hplain].
    pose proof (wf_bufferPos _ Hwf) as Hpos.
    pose proof (wf_inputBuffer _ Hwf) as Hbuf.
    cbn [length] in Hlen.
    cbn [drain]. unfold framer_char.
    destruct (Z.eqb_spec (char_of_byte b) LF); [contradiction|].
    destruct (Z.eqb_spec (char_of_byte b) CR); [contradiction|]. cbn [orb].
    destruct (Z.ltb_spec (bufferPos st) 510); [|lia].
    set (st1 := put_char (char_of_byte b) (bufferPos st + 1) st).
    assert (Hwf1 : wf st1) by (apply put_char_wf; [assumption | lia]).
    destruct (IH st1 Hwf1 Hplain) as (buf' & Hd & Hl & Ht).
    { subst st1. cbn [bufferPos put_char]. lia. }
    exists buf'. rewrite Hd. subst st1.
    cbn [bufferPos inputBuffer put_char] in *.
    split; [|split].
    + cbn [app fmap list_fmap length]. f_equal.
      replace (bufferPos st + 1 + Z.of_nat (length bytes))
        with (bufferPos st + Z.of_nat (S (length bytes))) by lia.
      reflexivity.
    + rewrite Hl, length_insert. reflexivity.
    + cbn [length fmap list_fmap].
      replace (Z.to_nat (bufferPos st) + S (length bytes))%nat
        with (Z.to_nat (bufferPos st + 1) + length bytes)%nat by lia.
      rewrite Ht.
      replace (Z.to_nat (bufferPos st + 1)) with (S (Z.to_nat (bufferPos st))) by lia.
      rewrite (take_S_r _ _ (char_of_byte b))
        by (apply list_lookup_insert_eq; unfold INPUT_BUFFER_SIZE in Hbuf; lia).
      rewrite take_insert_ge by lia.
      rewrite <- app_assoc. reflexivity.
Qed.

Lemma drain_terminators (ts : list Z) :
  forall st,
    bufferPos st = 0 -> Forall terminator ts ->
    drain ts st = (st, EvRead <$> ts).
Proof.
  induction ts as [|t ts IH]; intros st Hpos Hts; [reflexivity|].
  apply Forall_cons in Hts as [Ht Hts].
  cbn [drain]. unfold framer_char.
  replace ((char_of_byte t =? LF) || (char_of_byte t =? CR)) with true
    by (destruct Ht as [-> | ->]; reflexivity).
  rewrite Hpos. cbn [Z.ltb Z.compare].
  assert (E : set_bufferPos 0 st = st) by (destruct st; cbn in *; subst; reflexivity).
  rewrite E, (IH st Hpos Hts). reflexivity.
Qed.

(** Dispatching a buffered line is applying the command it spells. *)
Lemma dispatch_line (st : State) (line : list Z) :
  wf st -> line <> [] ->
  take (Z.to_nat (bufferPos st)) (inputBuffer st) = line ->
  dispatch st =
  set_input (<[Z.to_nat (bufferPos st) := 0]> (inputBuffer st)) (bufferPos st)
            (apply_command line st).
Proof.
  intros Hwf Hne Htake.
  pose proof (wf_bufferPos _ Hwf) as Hpos.
  pose proof (wf_inputBuffer _ Hwf) as Hbuf. unfold INPUT_BUFFER_SIZE in Hbuf.
  assert (Hlen : length line = Z.to_nat (bufferPos st)).
  { rewrite <- Htake, length_take. lia. }
  assert (Hnz : (0 < length line)%nat) by (destruct line; [congruence | cbn; lia]).
  unfold dispatch. cbn [inputBuffer put_char].
  rewrite insert_take_drop by lia. rewrite Htake.
  rewrite c_str_app_nul, !nth_app_nul by lia.
  change (put_char 0 (bufferPos st) st)
    with (set_input (<[Z.to_nat (bufferPos st) := 0]> (inputBuffer st))
                    (bufferPos st) st).
  rewrite insert_take_drop by lia. rewrite Htake.
  unfold apply_command.
  destruct (_ && _); [apply parsePalette_set_input | apply parseSingle_set_input].
Qed.

(** One complete line from an empty buffer: exactly its command is applied,
    and the buffer is empty again. *)
Lemma drain_complete_line (l : list Z * list Z) (st : State) :
  wf st -> bufferPos st = 0 -> complete_line l ->
  exists buf',
    length buf' = length (inputBuffer st) /\
    (drain (l.1 ++ l.2) st).1 =
    set_input buf' 0 (apply_command (char_of_byte <$> l.1) st).
Proof.
  intros Hwf Hpos (Hplain & Hlen & Hne & Hterm).
  destruct l as [text ts]. cbn [fst snd] in *.
  destruct ts as [|t ts]; [congruence|].
  apply Forall_cons in Hterm as [Ht Hts].
  destruct (drain_plain text st Hwf Hplain) as (buf1 & Hd & Hl1 & Htk); [lia|].
  rewrite Hpos in *. cbn [Z.to_nat Nat.add take app] in *.
  rewrite Z.add_0_l in Hd.
  rewrite drain_app, Hd. cbn [fst snd].
  remember (set_input buf1 (Z.of_nat (length text)) st) as st1 eqn:Hst1.
  assert (Hwf1 : wf st1)
    by (subst st1; apply set_input_wf; [assumption | assumption | lia]).
  cbn [drain]. unfold framer_char at 1.
  replace ((char_of_byte t =? LF) || (char_of_byte t =? CR)) with true
    by (destruct Ht as [-> | ->]; reflexivity).
  destruct (Z.ltb_spec 0 (bufferPos st1)); [|subst st1; cbn in *; lia].
  rewrite (dispatch_line st1 (char_of_byte <$> text) Hwf1).
  - match goal with |- context [drain ts ?s] =>
      rewrite (drain_terminators ts s eq_refl Hts) end.
    cbn [fst]. subst st1. cbn [bufferPos inputBuffer set_input].
    rewrite apply_command_set_input.
    exists (<[Z.to_nat (Z.of_nat (length text)) := 0]> buf1).
    split; [|reflexivity].
    rewrite length_insert. exact Hl1.
  - destruct text; [cbn in Hlen; lia | discriminate].
  - subst st1. cbn [bufferPos inputBuffer set_input].
    rewrite Nat2Z.id. exact Htk.
Qed.

Lemma apply_lines_set_input (buf : list Z) (pos : Z) (lines : list (list Z * list Z)) :
  forall st,
    apply_lines lines (set_input buf pos st) = set_input buf pos (apply_lines lines st).
Proof.
  induction lines as [|l lines IH]; intros st; [reflexivity|].
  cbn [apply_lines fold_left]. rewrite apply_command_set_input. apply IH.
Qed.

Lemma apply_lines_wf (lines : list (list Z * list Z)) :
  forall st, wf st -> wf (apply_lines lines st).
Proof.
  induction lines as [|l lines IH]; intros st Hwf; [assumption|].
  cbn [apply_lines fold_left]. apply IH, apply_command_wf, Hwf.
Qed.

Lemma apply_command_inputBuffer (line : list Z) (st : State) :
  inputBuffer (apply_command line st) = inputBuffer st.
Proof.
  rewrite <- (set_input_same st) at 1.
  rewrite apply_command_set_input. reflexivity.
Qed.

Lemma apply_lines_inputBuffer (lines : list (list Z * list Z)) (st : State) :
  inputBuffer (apply_lines lines st) = inputBuffer st.
Proof.
  rewrite <- (set_input_same st) at 1.
  rewrite apply_lines_set_input. reflexivity.
Qed.

(** Complete lines drained from an empty buffer: every one of their commands
    is applied, in order, and nothing else happens to the render state. *)
Lemma drain_lines (lines : list (list Z * list Z)) :
  forall st,
    wf st -> bufferPos st = 0 -> Forall complete_line lines ->
    exists buf',
      length buf' = length (inputBuffer st) /\
      (drain (wire lines) st).1 = set_input buf' 0 (apply_lines lines st).
Proof.
  induction lines as [|l lines IH]; intros st Hwf Hpos Hall.
  - exists (inputBuffer st). split; [reflexivity|].
    cbn. rewrite <- Hpos. symmetry. apply set_input_same.
  - apply Forall_cons in Hall as [Hl Hall].
    destruct (drain_complete_line l st Hwf Hpos Hl) as (buf1 & Hlen1 & Hd1).
    unfold wire. cbn [fmap list_fmap concat]. fold (wire lines).
    rewrite drain_app. cbn [fst]. rewrite Hd1.
    destruct (IH (set_input buf1 0 (apply_command (char_of_byte <$> l.1) st)))
      as (buf2 & Hlen2 & Hd2); [| reflexivity | assumption |].
    { apply set_input_wf; [|rewrite Hlen1|lia].
      - apply apply_command_wf, Hwf.
      - rewrite apply_command_inputBuffer. reflexivity. }
    exists buf2. split; [cbn in Hlen2; congruence|].
    rewrite Hd2, apply_lines_set_input. reflexivity.
Qed.

Lemma drain_lines_tail (lines : list (list Z * list Z)) (tail : list Z) (st : State) :
  wf st -> bufferPos st = 0 -> Forall complete_line lines ->
  Forall plain tail -> (length tail <= 510)%nat ->
  exists buf',
    (drain (wire lines ++ tail) st).1 =
    set_input buf' (Z.of_nat (length tail)) (apply_lines lines st).
Proof.
  intros Hwf Hpos Hall Htail Hlen.
  destruct (drain_lines lines st Hwf Hpos Hall) as (buf1 & Hlen1 & Hd1).
  rewrite drain_app. cbn [fst]. rewrite Hd1.
  destruct (drain_plain tail (set_input buf1 0 (apply_lines lines st)))
    as (buf2 & Hd2 & _); [|assumption|cbn; lia|].
  { apply set_input_wf; [apply apply_lines_wf, Hwf| |lia].
    rewrite Hlen1, apply_lines_inputBuffer. reflexivity. }
  exists buf2. rewrite Hd2. reflexivity.
Qed.

(** The drain reads every byte it is given and never calls [show]. *)
Lemma drain_trace (serial : list Z) :
  forall st, reads (drain serial st).2 = serial /\ shows (drain serial st).2 = [].
Proof.
  induction serial as [|b serial IH]; intros st; [split; reflexivity|].
  cbn [drain].
  destruct (framer_char (char_of_byte b) st) as [st1 ev] eqn:E.
  assert (Hev : ev = [] \/ ev = [EvPin13 true]).
  { unfold framer_char in E.
    destruct ((_ =? _) || (_ =? _)); [destruct (0 <? _)|destruct (_ <? 510)];
      injection E as <- <-; auto. }
  destruct (IH st1) as [Hr Hs].
  destruct (drain serial st1) as [st2 evs]. cbn [fst snd] in *.
  unfold reads, shows in *.
  destruct Hev as [-> | ->]; cbn; rewrite ?Hr, ?Hs; split; reflexivity.
Qed.

(** ** The two phases of a pass *)

(** The shape of a pass's result, shared by the theorems below. *)
Lemma loop_result_shape (serial : list Z) (st : State) :
  wf st ->
  let st1 := (drain serial st).1 in
  exists pre,
    loop serial st =
      Some ((if needsUpdate st1
             then set_needsUpdate false (set_leds (frame_of st1) st1) else st1),
            pre ++ (if needsUpdate st1 then [EvShow (frame_of st1)] else [])) /\
    shows pre = [] /\ reads pre = serial.
Proof.
  intros Hwf st1.
  destruct (drain_trace serial st) as [Hr Hs].
  exists ((drain serial st).2 ++ [EvPin13 false]). split; [|split].
  - rewrite (loop_spec serial st Hwf). cbv zeta. fold st1.
    destruct (needsUpdate st1) eqn:E; [rewrite <- app_assoc|rewrite app_nil_r];
      reflexivity.
  - unfold shows in *. rewrite omap_app, Hs. reflexivity.
  - unfold reads in *. rewrite omap_app, Hr. cbn. apply app_nil_r.
Qed.

(** C2: in every pass of [loop] the render comes after the drain has read
    every available byte; [show] is called only when needs-render is set after
    the drain, and then exactly once, as the last event of the pass, with the
    frame composed from the state the whole drain produced; when the input
    starts from an empty line buffer and consists of complete command lines
    followed by an unfinished one, that state is the one all the complete
    commands, applied in order, lead to; after the pass needs-render is
    clear. *)
Theorem loop_drains_then_renders_once (serial : list Z) (st : State) :
  wf st ->
  let st1 := (drain serial st).1 in
  exists st' pre,
    loop serial st =
      Some (st', pre ++ (if needsUpdate st1 then [EvShow (frame_of st1)] else [])) /\
    reads pre = serial /\ shows pre = [] /\
    st' = (if needsUpdate st1
           then set_needsUpdate false (set_leds (frame_of st1) st1) else st1) /\
    needsUpdate st' = false /\
    (forall lines tail,
       bufferPos st = 0 -> Forall complete_line lines ->
       Forall plain tail -> (length tail <= 510)%nat ->
       serial = wire lines ++ tail ->
       needsUpdate st1 = needsUpdate (apply_lines lines st) /\
       frame_of st1 = frame_of (apply_lines lines st)).
Proof.
  intros Hwf st1.
  destruct (drain_trace serial st) as [Hr Hs].
  exists (if needsUpdate st1
          then set_needsUpdate false (set_leds (frame_of st1) st1) else st1),
         ((drain serial st).2 ++ [EvPin13 false]).
  split; [|split; [|split; [|split; [reflexivity|split]]]].
  - rewrite (loop_spec serial st Hwf). cbv zeta. fold st1.
    destruct (needsUpdate st1) eqn:E; [rewrite <- app_assoc|rewrite app_nil_r];
      reflexivity.
  - unfold reads in *. rewrite omap_app, Hr. cbn. apply app_nil_r.
  - unfold shows in *. rewrite omap_app, Hs. reflexivity.
  - destruct (needsUpdate st1) eqn:E; [reflexivity | exact E].
  - intros lines tail Hpos Hlines Htail Hlen ->.
    destruct (drain_lines_tail lines tail st Hwf Hpos Hlines Htail Hlen)
      as (buf' & Hd).
    subst st1. rewrite Hd. split; reflexivity.
Qed.

(** ** The shape of a single-colour line *)

Lemma isdigit_not_other (c : Z) :
  isdigit c = true ->
  isspace c = false /\ (c =? ch "-") = false /\ (c =? ch "+") = false /\
  (c =? ch ",") = false.
Proof.
  unfold isdigit, isspace. norm_ch.
  destruct (Z.leb_spec 48 c), (Z.leb_spec c 57); cbn [andb]; try discriminate.
  intros _. split_bools; try lia; auto.
Qed.

Lemma skip_space_split (s : cstring) :
  exists ws, s = ws ++ skip_space s /\ Forall (fun c => isspace c = true) ws.
Proof.
  induction s as [|c s (ws & Hs & Hws)]; [exists []; auto|].
  cbn [skip_space]. destruct (isspace c) eqn:E.
  - exists (c :: ws). split; [cbn; congruence | constructor; assumption].
  - exists []. auto.
Qed.

Lemma skip_space_app (ws rest : cstring) :
  Forall (fun c => isspace c = true) ws -> skip_space rest = rest ->
  skip_space (ws ++ rest) = rest.
Proof.
  intros Hws Hrest. induction Hws as [|c ws Hc _ IH]; [exact Hrest|].
  cbn [app skip_space]. rewrite Hc. exact IH.
Qed.

Lemma scan_digits_split (s : cstring) :
  forall acc,
    exists ds,
      s = ds ++ (scan_digits acc s).2 /\
      Forall (fun c => isdigit c = true) ds /\
      (scan_digits acc s).1 = fold_left digit_step ds acc /\
      no_digit_head (scan_digits acc s).2.
Proof.
  induction s as [|c s IH]; intros acc; [exists []; cbn; auto|].
  cbn [scan_digits]. destruct (isdigit c) eqn:E.
  - destruct (IH (acc * 10 + (c - ch "0"))) as (ds & Hs & Hds & Hv & Hn).
    exists (c :: ds). repeat split; try assumption.
    + cbn [app]. congruence.
    + constructor; assumption.
  - exists []. cbn. auto.
Qed.

Lemma scan_digits_app (ds : list Z) :
  forall acc rest,
    Forall (fun c => isdigit c = true) ds -> no_digit_head rest ->
    scan_digits acc (ds ++ rest) = (fold_left digit_step ds acc, rest).
Proof.
  induction ds as [|c ds IH]; intros acc rest Hds Hrest.
  - cbn [app fold_left]. destruct rest as [|x rest]; [reflexivity|].
    cbn in *. rewrite Hrest. reflexivity.
  - apply Forall_cons in Hds as [Hc Hds]. cbn [app scan_digits fold_left].
    rewrite Hc. apply IH; assumption.
Qed.

Lemma scan_int_sound (s rest : cstring) (v : Z) :
  scan_int s = Some (v, rest) ->
  exists t, int_token t v /\ s = t ++ rest /\ no_digit_head rest.
Proof.
  unfold scan_int.
  destruct (skip_space_split s) as (ws & Hs & Hws).
  destruct (scan_sign (skip_space s)) as [neg s1] eqn:Hsign.
  assert (Hsg : exists sg, skip_space s = sg ++ s1 /\ sign_chars neg sg).
  { unfold scan_sign in Hsign. destruct (skip_space s) as [|c x].
    - injection Hsign as <- <-. exists []. split; [reflexivity | constructor].
    - destruct (Z.eqb_spec c (ch "-")) as [->|];
        [|destruct (Z.eqb_spec c (ch "+")) as [->|]];
        injection Hsign as <- <-.
      + exists [ch "-"]. split; [reflexivity | constructor].
      + exists [ch "+"]. split; [reflexivity | constructor].
      + exists []. split; [reflexivity | constructor]. }
  destruct Hsg as (sg & Hx & Hsg).
  destruct s1 as [|c s1]; [discriminate|].
  destruct (isdigit c) eqn:Hc; [|discriminate].
  destruct (scan_digits_split (c :: s1) 0) as (ds & Hd & Hds & Hv & Hn).
  destruct (scan_digits 0 (c :: s1)) as [v' rest'] eqn:E. cbn [fst snd] in *.
  intros [= <- <-].
  exists (ws ++ sg ++ ds). split; [|split; [|exact Hn]].
  - exists ws, neg, sg, ds. repeat split; try assumption.
    + intros ->. cbn [app] in Hd. subst rest'. cbn in Hn. congruence.
    + rewrite Hv. reflexivity.
  - rewrite Hs at 1. rewrite Hx, Hd, <- !app_assoc. reflexivity.
Qed.

Lemma scan_int_complete (t rest : cstring) (v : Z) :
  int_token t v -> no_digit_head rest -> scan_int (t ++ rest) = Some (v, rest).
Proof.
  intros (ws & neg & sg & ds & -> & Hws & Hsg & Hne & Hds & ->) Hrest.
  destruct ds as [|d ds]; [congruence|]. clear Hne.
  pose proof Hds as Hd. apply Forall_cons in Hd as [Hd _].
  destruct (isdigit_not_other d Hd) as (Hsp & Hminus & Hplus & _).
  unfold scan_int. rewrite <- !app_assoc.
  rewrite skip_space_app; [|assumption|].
  - destruct Hsg; cbn [app scan_sign];
      rewrite ?Z.eqb_refl, ?Hminus, ?Hplus;
      try (replace (ch "+" =? ch "-") with false by reflexivity);
      rewrite ?Z.eqb_refl, Hd;
      change (d :: ds ++ rest) with ((d :: ds) ++ rest);
      rewrite (scan_digits_app (d :: ds) 0 rest Hds Hrest); reflexivity.
  - destruct Hsg; cbn [app skip_space]; [rewrite Hsp| |]; reflexivity.
Qed.

Lemma comma_no_digit (s : cstring) : no_digit_head (ch "," :: s).
Proof. reflexivity. Qed.

Lemma sscanf_shape (data : cstring) (r g b : Z) :
  single_color_shape data r g b <-> sscanf_d_d_d data = (3, (r, g, b)).
Proof.
  split.
  - intros (t1 & t2 & t3 & rest & H1 & H2 & H3 & Hrest & ->).
    unfold sscanf_d_d_d.
    rewrite (scan_int_complete t1 _ r H1 (comma_no_digit _)).
    rewrite Z.eqb_refl.
    rewrite (scan_int_complete t2 _ g H2 (comma_no_digit _)).
    rewrite Z.eqb_refl.
    rewrite (scan_int_complete t3 rest b H3 Hrest). reflexivity.
  - unfold sscanf_d_d_d.
    destruct (scan_int data) as [[r' s1]|] eqn:E1;
      [|destruct (skip_space data); discriminate].
    destruct s1 as [|c1 s2]; [discriminate|].
    destruct (Z.eqb_spec c1 (ch ",")) as [->|]; [|discriminate].
    destruct (scan_int s2) as [[g' s3]|] eqn:E2; [|discriminate].
    destruct s3 as [|c2 s4]; [discriminate|].
    destruct (Z.eqb_spec c2 (ch ",")) as [->|]; [|discriminate].
    destruct (scan_int s4) as [[b' s5]|] eqn:E3; [|discriminate].
    intros [= <- <- <-].
    apply scan_int_sound in E1 as (t1 & H1 & -> & _).
    apply scan_int_sound in E2 as (t2 & H2 & -> & _).
    apply scan_int_sound in E3 as (t3 & H3 & -> & Hrest).
    exists t1, t2, t3, s5. auto.
Qed.

Lemma parseSingle_accept (data : cstring) (st : State) (r g b : Z) :
  sscanf_d_d_d data = (3, (r, g, b)) ->
  parseSingle data st =
  commit_single (calibrate (constrain r 0 255) RED_FACTOR)
                (calibrate (constrain g 0 255) GREEN_FACTOR)
                (calibrate (constrain b 0 255) BLUE_FACTOR) st.
Proof. intros H. unfold parseSingle. rewrite H. reflexivity. Qed.

Lemma parseSingle_reject (data : cstring) (st : State) :
  (sscanf_d_d_d data).1 <> 3 -> parseSingle data st = st.
Proof.
  intros H. unfold parseSingle.
  destruct (sscanf_d_d_d data) as [count [[r g] b]]. cbn [fst] in H.
  destruct (Z.eqb_spec count 3); [contradiction | reflexivity].
Qed.

(** ** The single-colour parser *)

Lemma exact_shape_scans (line : cstring) (r g b : Z) :
  exact_single_color_shape line r g b ->
  exists s2 s4,
    scan_int line = Some (r, ch "," :: s2) /\
    scan_int s2 = Some (g, ch "," :: s4) /\
    scan_int s4 = Some (b, []).
Proof.
  intros (t1 & t2 & t3 & H1 & H2 & H3 & ->).
  exists (t2 ++ ch "," :: t3), t3.
  split; [apply (scan_int_complete t1 _ r H1 (comma_no_digit _))|].
  split; [apply (scan_int_complete t2 _ g H2 (comma_no_digit _))|].
  rewrite <- (app_nil_r t3) at 1. apply (scan_int_complete t3 [] b H3 I).
Qed.

(** C6, as stated, fails: the line [1,2,3,4] is not of the shape
    [<int>,<int>,<int>] (it holds four integers, whatever values one tries
    for the three), and yet the scan returns 3 and the parser accepts it,
    committing the flat colour (1, 1, 2) and setting needs-render. *)
Lemma parseSingle_accepts_trailing_text :
  (forall r g b, ~ exact_single_color_shape (of_string "1,2,3,4") r g b) /\
  sscanf_d_d_d (of_string "1,2,3,4") = (3, (1, 2, 3)) /\
  parseSingle (of_string "1,2,3,4") initial <> initial /\
  parseSingle (of_string "1,2,3,4") initial = commit_single 1 1 2 initial /\
  needsUpdate (parseSingle (of_string "1,2,3,4") initial) = true.
Proof.
  split.
  { intros r g b H. apply exact_shape_scans in H as (s2 & s4 & E1 & E2 & E3).
    vm_compute in E1. injection E1 as <- <-.
    vm_compute in E2. injection E2 as <- <-.
    vm_compute in E3. discriminate. }
  split; [vm_compute; reflexivity|].
  split; [|split; vm_compute; reflexivity].
  intros H. apply (f_equal needsUpdate) in H. vm_compute in H. discriminate.
Qed.

(** C6 (amended): the single-colour parser accepts a line if and only if the
    line begins with three comma-separated integers in the shape
    [<int>,<int>,<int>] (each integer with the white space and sign of
    standard integer parsing); whatever follows the third integer is ignored,
    so that [1,2,3,4] and [1,2,3xyz] are accepted as [1,2,3].  A line that
    does not begin so leaves the state unchanged.  On success each value is
    clamped into 0..255, multiplied by its channel factor and truncated; the
    result becomes the flat colour, the mode becomes flat and needs-render is
    set; nothing else changes. *)
Theorem parseSingle_accepts_three_ints (data : cstring) (st : State) :
  (forall r g b,
     single_color_shape data r g b <-> sscanf_d_d_d data = (3, (r, g, b))) /\
  ((forall r g b, ~ single_color_shape data r g b) -> parseSingle data st = st) /\
  (forall r g b,
     single_color_shape data r g b ->
     let cr := constrain r 0 255 in
     let cg := constrain g 0 255 in
     let cb := constrain b 0 255 in
     let st' := parseSingle data st in
     channel cr /\ channel cg /\ channel cb /\
     (channel r -> cr = r) /\ (channel g -> cg = g) /\ (channel b -> cb = b) /\
     st' = commit_single (calibrate cr RED_FACTOR) (calibrate cg GREEN_FACTOR)
                         (calibrate cb BLUE_FACTOR) st /\
     currentR st' = cr /\ currentG st' = cg * 3 / 4 /\ currentB st' = cb * 9 / 10 /\
     paletteMode st' = false /\ needsUpdate st' = true /\
     paletteSize st' = paletteSize st /\ paletteR st' = paletteR st /\
     paletteG st' = paletteG st /\ paletteB st' = paletteB st).
Proof.
  split; [intros; apply sscanf_shape|]. split.
  - intros Hno. apply parseSingle_reject.
    destruct (sscanf_d_d_d data) as [count [[r g] b]] eqn:E. cbn [fst].
    intros ->. apply (Hno r g b), sscanf_shape, E.
  - intros r g b Hshape. cbv zeta.
    apply sscanf_shape in Hshape.
    rewrite (parseSingle_accept data st r g b Hshape).
    pose proof (constrain_channel r) as Hr. pose proof (constrain_channel g) as Hg.
    pose proof (constrain_channel b) as Hb.
    destruct (calibrate_exact _ Hr) as (Er & _ & _).
    destruct (calibrate_exact _ Hg) as (_ & Eg & _).
    destruct (calibrate_exact _ Hb) as (_ & _ & Eb).
    cbn [currentR currentG currentB paletteMode needsUpdate paletteSize
         paletteR paletteG paletteB commit_single].
    rewrite Er, Eg, Eb.
    repeat (split; [first [assumption | apply constrain_id | reflexivity]|]).
    reflexivity.
Qed.

Lemma parseSingle_accepts_three_ints_witness :
  single_color_shape (of_string " 12, -3,+400xyz") 12 (-3) 400 /\
  currentR (parseSingle (of_string " 12, -3,+400xyz") initial) = 12 /\
  currentG (parseSingle (of_string " 12, -3,+400xyz") initial) = 0 /\
  currentB (parseSingle (of_string " 12, -3,+400xyz") initial) = 229.
Proof.
  destruct (parseSingle_accepts_three_ints (of_string " 12, -3,+400xyz") initial)
    as (Hiff & _ & Hacc).
  assert (H : single_color_shape (of_string " 12, -3,+400xyz") 12 (-3) 400)
    by (apply Hiff; vm_compute; reflexivity).
  split; [exact H|].
  destruct (Hacc 12 (-3) 400 H) as (_ & _ & _ & _ & _ & _ & _ & Hr & Hg & Hb & _).
  rewrite Hr, Hg, Hb. vm_compute. repeat split; reflexivity.
Defined.

(** ** Flat-colour commands *)

Lemma decimal_aux_spec (fuel : nat) :
  forall n acc,
    0 <= n -> (Z.to_nat n < fuel)%nat ->
    Forall (fun c => isdigit c = true) acc ->
    Forall (fun c => isdigit c = true) (decimal_aux fuel n acc) /\
    decimal_aux fuel n acc <> [] /\
    fold_left digit_step (decimal_aux fuel n acc) 0 = fold_left digit_step acc n.
Proof.
  induction fuel as [|fuel IH]; intros n acc Hn Hfuel Hacc; [lia|].
  cbn [decimal_aux].
  pose proof (Z.mod_pos_bound n 10 ltac:(lia)) as Hmod.
  assert (Hd : isdigit (ch "0" + n mod 10) = true).
  { unfold isdigit. norm_ch. split_bools; first [lia | reflexivity]. }
  destruct (Z.ltb_spec n 10).
  - split; [constructor; assumption|]. split; [discriminate|].
    cbn [fold_left]. unfold digit_step at 2. f_equal.
    rewrite Z.mod_small by lia. lia.
  - destruct (IH (n / 10) ((ch "0" + n mod 10) :: acc)) as (H1 & H2 & H4).
    + apply Z.div_pos; lia.
    + assert (n / 10 < n) by (apply Z.div_lt; lia). lia.
    + constructor; assumption.
    + split; [exact H1|]. split; [exact H2|].
      rewrite H4. cbn [fold_left]. unfold digit_step at 2. f_equal.
      pose proof (Z.div_mod n 10 ltac:(lia)). lia.
Qed.

Lemma decimal_token (n : Z) : 0 <= n < 32768 -> int_token (decimal n) n.
Proof.
  intros Hn.
  destruct (decimal_aux_spec (S (Z.to_nat n)) n [] ltac:(lia) ltac:(lia)
              ltac:(constructor)) as (Hds & Hne & Hv).
  exists [], false, [], (decimal n). cbn [app].
  repeat split; try assumption; try constructor.
  unfold digits_value, decimal. rewrite Hv. cbn [fold_left].
  unfold wrap16. rewrite Z.mod_small by lia. lia.
Qed.

Lemma flat_command_shape (r g b : Z) :
  channel r -> channel g -> channel b ->
  single_color_shape (flat_command r g b) r g b.
Proof.
  unfold channel. intros Hr Hg Hb.
  exists (decimal r), (decimal g), (decimal b), [].
  repeat split; try (apply decimal_token; lia).
  unfold flat_command. rewrite app_nil_r. reflexivity.
Qed.

(** The characters of a flat-colour command are ordinary bytes: digits and
    commas. *)
Lemma flat_command_chars (r g b : Z) :
  channel r -> channel g -> channel b ->
  Forall (fun c => isdigit c = true \/ c = ch ",") (flat_command r g b) /\
  (0 < length (flat_command r g b) <= 510)%nat.
Proof.
  unfold channel. intros Hr Hg Hb.
  assert (Hdec : forall n, 0 <= n <= 255 ->
            Forall (fun c => isdigit c = true \/ c = ch ",") (decimal n) /\
            (0 < length (decimal n) <= 3)%nat).
  { intros n Hn.
    destruct (decimal_aux_spec (S (Z.to_nat n)) n [] ltac:(lia) ltac:(lia)
                ltac:(constructor)) as (Hds & Hne & _).
    fold (decimal n) in *. split.
    - eapply Forall_impl; [exact Hds|]. cbn. auto.
    - pose proof (forall_byte (fun n => (length (decimal n) <=? 3)%nat)
                    ltac:(vm_compute; reflexivity) n Hn) as Hlen.
      apply Nat.leb_le in Hlen.
      destruct (decimal n); [congruence|]. cbn [length] in *. lia. }
  destruct (Hdec r Hr) as [Fr Lr], (Hdec g Hg) as [Fg Lg], (Hdec b Hb) as [Fb Lb].
  unfold flat_command. split.
  - repeat first [apply Forall_app_2 | apply Forall_cons_2]; auto.
  - rewrite length_app. cbn [length]. rewrite length_app. cbn [length]. lia.
Qed.

Lemma ordinary_char (c : Z) :
  isdigit c = true \/ c = ch "," ->
  char_of_byte c = c /\ plain c /\ (c =? 0) = false /\ (c =? ch "P") = false.
Proof.
  intros Hc.
  assert (Hrange : 44 <= c <= 57).
  { destruct Hc as [Hc | ->]; [|vm_compute; split; discriminate].
    unfold isdigit in Hc. norm_ch. apply andb_prop in Hc as [H1 H2].
    apply Z.leb_le in H1, H2. lia. }
  assert (E : char_of_byte c = c).
  { unfold char_of_byte. rewrite Z.mod_small by lia.
    destruct (Z.leb_spec 128 c); [lia | reflexivity]. }
  unfold plain. rewrite E. unfold LF, CR. norm_ch.
  repeat split; try lia; apply Z.eqb_neq; lia.
Qed.

Lemma c_str_no_nul (l : list Z) :
  Forall (fun c => (c =? 0) = false) l -> c_str l = l.
Proof.
  induction 1 as [|c l Hc _ IH]; [reflexivity|].
  cbn [c_str]. rewrite Hc, IH. reflexivity.
Qed.

Lemma fmap_fixed (f : Z -> Z) (l : list Z) :
  Forall (fun c => f c = c) l -> f <$> l = l.
Proof.
  induction 1 as [|c l Hc _ IH]; [reflexivity|].
  cbn [fmap list_fmap]. rewrite Hc. f_equal. exact IH.
Qed.

(** A flat-colour command is dispatched to [parseSingle] and accepted with
    its own three values. *)
Lemma apply_flat_command (r g b : Z) (st : State) :
  channel r -> channel g -> channel b ->
  apply_command (char_of_byte <$> flat_command r g b) st =
  commit_single (calibrate r RED_FACTOR) (calibrate g GREEN_FACTOR)
                (calibrate b BLUE_FACTOR) st.
Proof.
  intros Hr Hg Hb.
  destruct (flat_command_chars r g b Hr Hg Hb) as [Hchars Hlen].
  rewrite fmap_fixed
    by (eapply Forall_impl; [exact Hchars|]; intros c Hc; apply ordinary_char, Hc).
  unfold apply_command.
  rewrite c_str_no_nul
    by (eapply Forall_impl; [exact Hchars|]; intros c Hc; apply ordinary_char, Hc).
  assert (Hhead : (nth 0 (flat_command r g b) 0 =? ch "P") = false).
  { destruct (flat_command r g b) as [|c l]; [cbn in Hlen; lia|].
    apply Forall_cons in Hchars as [Hc _]. cbn [nth]. apply ordinary_char, Hc. }
  rewrite Hhead. cbn [andb].
  pose proof (flat_command_shape r g b Hr Hg Hb) as Hshape.
  apply sscanf_shape in Hshape.
  rewrite (parseSingle_accept _ st r g b Hshape).
  rewrite !constrain_id by assumption. reflexivity.
Qed.

Lemma frame_of_flat (st : State) :
  paletteMode st = false ->
  frame_of st =
  replicate (Z.to_nat NUM_LEDS) (CRGB_of (currentR st) (currentG st) (currentB st)).
Proof.
  intros Hmode. unfold frame_of.
  rewrite (const_fmap (pixel st) _ (CRGB_of (currentR st) (currentG st) (currentB st))).
  - rewrite length_seqZ. reflexivity.
  - intros i. unfold pixel. rewrite Hmode. reflexivity.
Qed.

(** C4: for every flat-colour command [r,g,b] with [r], [g], [b] in 0..255,
    sent as one line to a sketch whose line buffer is empty, the pass
    transmits one frame, and it is uniform: each of the [NUM_LEDS] pixels is
    [(r * RED_FACTOR, g * GREEN_FACTOR, b * BLUE_FACTOR)], every product
    truncated to an integer, which is [(r, 3g/4, 9b/10)] with integer
    division. *)
Theorem flat_command_uniform_frame (r g b : Z) (st : State) :
  wf st -> bufferPos st = 0 -> channel r -> channel g -> channel b ->
  exists st' tr,
    loop (flat_command r g b ++ [LF]) st = Some (st', tr) /\
    shows tr = [leds st'] /\
    leds st' =
      replicate (Z.to_nat NUM_LEDS)
        (CRGB_of (calibrate r RED_FACTOR) (calibrate g GREEN_FACTOR)
                 (calibrate b BLUE_FACTOR)) /\
    calibrate r RED_FACTOR = r /\
    calibrate g GREEN_FACTOR = g * 3 / 4 /\
    calibrate b BLUE_FACTOR = b * 9 / 10 /\
    length (leds st') = Z.to_nat NUM_LEDS /\
    (forall i px, leds st' !! i = Some px ->
       px = {| red := r; green := g * 3 / 4; blue := b * 9 / 10 |}).
Proof.
  intros Hwf Hpos Hr Hg Hb.
  destruct (flat_command_chars r g b Hr Hg Hb) as [Hchars Hlen].
  assert (Hline : complete_line (flat_command r g b, [LF])).
  { split; [|split; [exact Hlen|split; [discriminate|]]]; cbn [fst snd].
    - eapply Forall_impl; [exact Hchars|]. intros c Hc. apply ordinary_char, Hc.
    - constructor; [left; reflexivity | constructor]. }
  destruct (drain_complete_line _ st Hwf Hpos Hline) as (buf' & _ & Hd).
  cbn [fst snd] in Hd. rewrite (apply_flat_command r g b st Hr Hg Hb) in Hd.
  destruct (loop_result_shape
              (flat_command r g b ++ [LF]) st Hwf) as (pre & Hloop & Hshows & _).
  rewrite Hd in Hloop. cbn [needsUpdate set_input commit_single] in Hloop.
  rewrite frame_of_flat in Hloop by reflexivity.
  cbn [currentR currentG currentB set_input commit_single] in Hloop.
  destruct (calibrate_exact r Hr) as (Er & _ & _).
  destruct (calibrate_exact g Hg) as (_ & Eg & _).
  destruct (calibrate_exact b Hb) as (_ & _ & Eb).
  eexists _, _. split; [exact Hloop|].
  cbn [leds set_needsUpdate set_leds].
  split; [unfold shows in *; rewrite omap_app, Hshows; reflexivity|].
  split; [reflexivity|].
  split; [exact Er|]. split; [exact Eg|]. split; [exact Eb|].
  split; [apply length_replicate|].
  intros i px Hpx. apply lookup_replicate_1 in Hpx as [-> _].
  rewrite Er, Eg, Eb. unfold CRGB_of, channel in *.
  assert (0 <= g * 3 / 4 <= 255)
    by (split; [apply Z.div_pos | apply Z.div_le_upper_bound]; lia).
  assert (0 <= b * 9 / 10 <= 255)
    by (split; [apply Z.div_pos | apply Z.div_le_upper_bound]; lia).
  rewrite !Z.mod_small by lia. reflexivity.
Qed.

(** ** A palette command abandoned half way *)

(** Every way [parsePalette] can end: it commits the count it parsed, or it
    leaves mode, size, flat colour, needs-render, line buffer and frame buffer
    alone (the palette entries are not covered by this). *)
Lemma parsePalette_outcome (data : cstring) (st : State) :
  let st' := parsePalette data st in
  (paletteMode st' = true /\ needsUpdate st' = true /\
   paletteSize st' = atoi (drop 2 data) /\ 1 <= paletteSize st' <= MAX_PALETTE) \/
  same_scalars st st'.
Proof.
  cbv zeta. unfold parsePalette.
  destruct (Z.ltb_spec (atoi (drop 2 data)) 1); cbn [orb];
    [right; unfold same_scalars; tauto|].
  destruct (Z.ltb_spec MAX_PALETTE (atoi (drop 2 data)));
    [right; unfold same_scalars; tauto|].
  destruct (strchr _ _) as [ptr|]; [|right; unfold same_scalars; tauto].
  destruct (parsePalette_loop _ _ _ _) as [st' fin] eqn:E.
  apply parsePalette_loop_inv in E as (Hs & _).
  destruct fin; [left; cbn; repeat split; lia | right; exact Hs].
Qed.

(** C1 (the code departs from it): the palette command [P:2:0000FF:12] is
    rejected after its first entry has been parsed; mode, size and
    needs-render are as before, but palette entry 0 of the palette committed
    by [P:2:FF0000:00FF00] has been overwritten, from calibrated red to
    calibrated blue, and when both lines are drained in the same pass the
    frame that is transmitted starts with the blue block instead of the red
    one the accepted command asked for. *)
Theorem parsePalette_partial_failure_overwrites :
  let st0 := parsePalette red_green_line initial in
  let st1 := parsePalette truncated_line st0 in
  same_scalars st0 st1 /\
  paletteMode st0 = true /\ paletteSize st0 = 2 /\
  (paletteR st0 !! 0%nat, paletteG st0 !! 0%nat, paletteB st0 !! 0%nat)
    = (Some 255, Some 0, Some 0) /\
  (paletteR st1 !! 0%nat, paletteG st1 !! 0%nat, paletteB st1 !! 0%nat)
    = (Some 0, Some 0, Some 229) /\
  st1 <> st0 /\
  frame_of st1 <> frame_of st0 /\
  (exists st' tr,
     loop (red_green_line ++ [LF]) initial = Some (st', tr) /\
     shows tr = [frame_of st0] /\
     frame_of st0 !! 0%nat = Some (CRGB_of 255 0 0)) /\
  (exists st' tr,
     loop (red_green_line ++ [LF] ++ truncated_line ++ [LF]) initial = Some (st', tr) /\
     shows tr = [frame_of st1] /\
     frame_of st1 !! 0%nat = Some (CRGB_of 0 0 229)).
Proof.
  cbv zeta.
  split; [vm_compute; repeat split; reflexivity|].
  split; [vm_compute; reflexivity|].
  split; [vm_compute; reflexivity|].
  split; [vm_compute; reflexivity|].
  split; [vm_compute; reflexivity|].
  split; [intros H; apply (f_equal (fun s => paletteB s !! 0%nat)) in H;
          vm_compute in H; discriminate|].
  split; [intros H; apply (f_equal (fun f => f !! 0%nat)) in H;
          vm_compute in H; discriminate|].
  split; eexists _, _; (split; [vm_compute; reflexivity|]);
    split; vm_compute; reflexivity.
Qed.

(** ** Concrete instances *)

Lemma loop_drains_then_renders_once_witness :
  wf initial /\
  exists st' pre,
    loop (of_string "255,0,0" ++ [LF]) initial
      = Some (st', pre ++ [EvShow (replicate 256 (CRGB_of 255 0 0))]) /\
    reads pre = of_string "255,0,0" ++ [LF] /\ shows pre = [] /\
    needsUpdate st' = false.
Proof.
  split; [exact wf_initial|].
  destruct (loop_drains_then_renders_once (of_string "255,0,0" ++ [LF]) initial
              wf_initial) as (st' & pre & Hloop & Hr & Hs & _ & Hnu & _).
  exists st', pre. split; [|auto].
  rewrite Hloop. f_equal.
Defined.

Lemma palette_blocks_witness :
  wf three_colour_state /\ paletteMode three_colour_state = true /\
  1 <= paletteSize three_colour_state <= MAX_PALETTE /\
  exists st',
    composite three_colour_state = Some st' /\
    leds st' !! 84%nat = Some (palette_entry three_colour_state 0) /\
    leds st' !! 85%nat = Some (palette_entry three_colour_state 1) /\
    leds st' !! 255%nat = Some (palette_entry three_colour_state 2).
Proof.
  assert (Hwf : wf three_colour_state) by (apply parsePalette_wf, wf_initial).
  assert (Hmode : paletteMode three_colour_state = true) by reflexivity.
  assert (Hn : 1 <= paletteSize three_colour_state <= MAX_PALETTE)
    by (vm_compute; split; discriminate).
  split; [exact Hwf|]. split; [exact Hmode|]. split; [exact Hn|].
  destruct (palette_blocks three_colour_state Hwf Hmode Hn)
    as (st' & Hc & _ & Hpx & _).
  exists st'. split; [exact Hc|].
  destruct (Hpx 84 ltac:(vm_compute; split; [discriminate|reflexivity])) as (H1 & _).
  destruct (Hpx 85 ltac:(vm_compute; split; [discriminate|reflexivity])) as (H2 & _).
  destruct (Hpx 255 ltac:(vm_compute; split; [discriminate|reflexivity])) as (H3 & _).
  split; [exact H1|]. split; [exact H2|exact H3].
Defined.

Lemma flat_command_uniform_frame_witness :
  wf initial /\ bufferPos initial = 0 /\
  channel 10 /\ channel 20 /\ channel 30 /\
  exists st' tr,
    loop (of_string "10,20,30" ++ [LF]) initial = Some (st', tr) /\
    shows tr = [leds st'] /\
    leds st' = replicate 256 {| red := 10; green := 15; blue := 27 |}.
Proof.
  assert (Hc : forall v, 0 <= v <= 255 -> channel v) by (intros v H; exact H).
  assert (H10 : channel 10) by (apply Hc; lia).
  assert (H20 : channel 20) by (apply Hc; lia).
  assert (H30 : channel 30) by (apply Hc; lia).
  split; [exact wf_initial|]. split; [reflexivity|].
  split; [exact H10|]. split; [exact H20|]. split; [exact H30|].
  destruct (flat_command_uniform_frame 10 20 30 initial wf_initial eq_refl
              H10 H20 H30) as (st' & tr & Hloop & Hshow & Hleds & _).
  exists st', tr. split; [exact Hloop|]. split; [exact Hshow|].
  rewrite Hleds. vm_compute. reflexivity.
Defined.

(** * Further properties of the sketch *)

(** ** Hex decoding and calibration *)

Lemma lenient_nibble_hex_char (upper : bool) (v : Z) :
  0 <= v < 16 -> lenient_nibble (hex_char upper v) = v.
Proof.
  intros Hv. unfold lenient_nibble, hex_digit_value, hex_char. norm_ch.
  destruct (Z.ltb_spec v 10).
  - destruct (Z.leb_spec 48 (48 + v)); [|lia].
    destruct (Z.leb_spec (48 + v) 57); [|lia].
    cbn [andb default from_option id]. lia.
  - destruct upper.
    + destruct (Z.leb_spec 48 (65 + (v - 10))); [|lia].
      destruct (Z.leb_spec (65 + (v - 10)) 57); [lia|].
      destruct (Z.leb_spec 65 (65 + (v - 10))); [|lia].
      destruct (Z.leb_spec (65 + (v - 10)) 70); [|lia].
      cbn [andb default from_option id]. lia.
    + destruct (Z.leb_spec 48 (97 + (v - 10))); [|lia].
      destruct (Z.leb_spec (97 + (v - 10)) 57); [lia|].
      destruct (Z.leb_spec 65 (97 + (v - 10))); [|lia].
      destruct (Z.leb_spec (97 + (v - 10)) 70); [lia|].
      destruct (Z.leb_spec 97 (97 + (v - 10))); [|lia].
      destruct (Z.leb_spec (97 + (v - 10)) 102); [|lia].
      cbn [andb default from_option id]. lia.
Qed.

Lemma hexToByte_hex_chars (u1 u2 : bool) (b : Z) :
  0 <= b <= 255 -> hexToByte (hex_char u1 (b / 16)) (hex_char u2 (b mod 16)) = b.
Proof.
  intros Hb. rewrite hexToByte_nibbles.
  pose proof (Z.mod_pos_bound b 16 ltac:(lia)) as Hm.
  assert (0 <= b / 16 < 16)
    by (split; [apply Z.div_pos; lia | apply Z.div_lt_upper_bound; lia]).
  rewrite !lenient_nibble_hex_char by lia.
  pose proof (Z.div_mod b 16 ltac:(lia)). lia.
Qed.

(** X1: decoding inverts hexadecimal writing: for every byte [b], [hexToByte]
    applied to the two hexadecimal digits of [b] returns [b], whatever the
    case of either digit; two different bytes therefore never decode
    alike. *)
Theorem hexToByte_decodes_hex_digits (u1 u2 : bool) (b : Z) :
  0 <= b <= 255 ->
  hexToByte (hex_char u1 (b / 16)) (hex_char u2 (b mod 16)) = b /\
  (forall u1' u2' b',
     0 <= b' <= 255 ->
     hex_char u1' (b' / 16) = hex_char u1 (b / 16) ->
     hex_char u2' (b' mod 16) = hex_char u2 (b mod 16) -> b' = b).
Proof.
  intros Hb. split; [apply hexToByte_hex_chars, Hb|].
  intros u1' u2' b' Hb' H1 H2.
  rewrite <- (hexToByte_hex_chars u1' u2' b' Hb'), H1, H2.
  apply hexToByte_hex_chars, Hb.
Qed.

Lemma hexToByte_decodes_hex_digits_witness :
  0 <= 171 <= 255 /\
  hexToByte (ch "A") (ch "b") = 171.
Proof.
  assert (H : 0 <= 171 <= 255) by lia.
  split; [exact H|].
  exact (proj1 (hexToByte_decodes_hex_digits true false 171 H)).
Defined.

(** X2: calibration keeps the order of channel values: for each of the three
    factors a larger byte never gives a smaller calibrated value; 0 stays 0
    and full scale 255 becomes 255, 191 and 229. *)
Theorem calibrate_monotone (u v : Z) :
  0 <= u <= v -> v <= 255 ->
  calibrate u RED_FACTOR <= calibrate v RED_FACTOR /\
  calibrate u GREEN_FACTOR <= calibrate v GREEN_FACTOR /\
  calibrate u BLUE_FACTOR <= calibrate v BLUE_FACTOR /\
  calibrate 0 RED_FACTOR = 0 /\ calibrate 0 GREEN_FACTOR = 0 /\
  calibrate 0 BLUE_FACTOR = 0 /\
  calibrate 255 RED_FACTOR = 255 /\ calibrate 255 GREEN_FACTOR = 191 /\
  calibrate 255 BLUE_FACTOR = 229.
Proof.
  intros Hu Hv.
  destruct (calibrate_exact u ltac:(lia)) as (-> & -> & ->).
  destruct (calibrate_exact v ltac:(lia)) as (-> & -> & ->).
  split; [lia|].
  split; [apply Z.div_le_mono; lia|].
  split; [apply Z.div_le_mono; lia|].
  repeat split; vm_compute; reflexivity.
Qed.

Lemma calibrate_monotone_witness :
  0 <= 100 <= 101 /\ 101 <= 255 /\
  calibrate 100 GREEN_FACTOR <= calibrate 101 GREEN_FACTOR.
Proof.
  assert (H1 : 0 <= 100 <= 101) by lia.
  assert (H2 : 101 <= 255) by lia.
  split; [exact H1|]. split; [exact H2|].
  exact (proj1 (proj2 (calibrate_monotone 100 101 H1 H2))).
Defined.

(** ** What a palette command can and cannot change *)

Lemma parsePalette_loop_keeps (cnt : nat) :
  forall i ptr st,
    0 <= i ->
    let st' := (parsePalette_loop cnt i ptr st).1 in
    length (paletteR st') = length (paletteR st) /\
    length (paletteG st') = length (paletteG st) /\
    length (paletteB st') = length (paletteB st) /\
    forall j : nat,
      (j < Z.to_nat i \/ Z.to_nat i + cnt <= j)%nat ->
      paletteR st' !! j = paletteR st !! j /\
      paletteG st' !! j = paletteG st !! j /\
      paletteB st' !! j = paletteB st !! j.
Proof.
  induction cnt as [|cnt IH]; intros i ptr st Hi; cbn [parsePalette_loop].
  - cbv zeta. cbn [fst]. repeat split; reflexivity.
  - destruct (strlen ptr <? 6); [cbv zeta; cbn [fst]; repeat split; reflexivity|].
    match goal with
    | |- context [parsePalette_loop cnt ?i' ?p' ?s'] =>
        specialize (IH i' p' s' ltac:(lia)); cbv zeta in IH;
        destruct IH as (Hr & Hg & Hb & Hj)
    end.
    cbv zeta. rewrite Hr, Hg, Hb. cbn [paletteR paletteG paletteB set_palette_entry].
    rewrite !length_insert. repeat split; try reflexivity.
    all: destruct (Hj j ltac:(lia)) as (Jr & Jg & Jb);
      cbn [paletteR paletteG paletteB set_palette_entry] in Jr, Jg, Jb;
      rewrite ?Jr, ?Jg, ?Jb; apply list_lookup_insert_ne; lia.
Qed.

(** X4: whatever its text, a palette command never changes the flat colour,
    the line buffer, the buffer position or the frame buffer, never resizes
    the palette arrays, and never writes a palette entry at or beyond the
    count its count field converts to. *)
Theorem parsePalette_frame (data : cstring) (st : State) :
  let st' := parsePalette data st in
  currentR st' = currentR st /\ currentG st' = currentG st /\
  currentB st' = currentB st /\ inputBuffer st' = inputBuffer st /\
  bufferPos st' = bufferPos st /\ leds st' = leds st /\
  length (paletteR st') = length (paletteR st) /\
  length (paletteG st') = length (paletteG st) /\
  length (paletteB st') = length (paletteB st) /\
  forall j : nat,
    (Z.to_nat (atoi (drop 2 data)) <= j)%nat ->
    paletteR st' !! j = paletteR st !! j /\
    paletteG st' !! j = paletteG st !! j /\
    paletteB st' !! j = paletteB st !! j.
Proof.
  cbv zeta. unfold parsePalette.
  destruct ((_ <? _) || (_ <? _)); [repeat split; reflexivity|].
  destruct (strchr _ _) as [ptr|]; [|repeat split; reflexivity].
  pose proof (parsePalette_loop_keeps (Z.to_nat (atoi (drop 2 data))) 0
                (drop 1 ptr) st ltac:(lia)) as Hk. cbv zeta in Hk.
  destruct (parsePalette_loop _ _ _ _) as [st' fin] eqn:E.
  apply parsePalette_loop_inv in E as (Hs & _).
  destruct Hs as (_ & _ & Hr & Hg & Hb & _ & Hbuf & Hpos & Hleds).
  cbn [fst] in Hk. destruct Hk as (Lr & Lg & Lb & Hj).
  assert (Hj' : forall j : nat,
            (Z.to_nat (atoi (drop 2 data)) <= j)%nat ->
            paletteR st' !! j = paletteR st !! j /\
            paletteG st' !! j = paletteG st !! j /\
            paletteB st' !! j = paletteB st !! j)
    by (intros j Hle; apply Hj; cbn; lia).
  destruct fin; cbn; repeat split; try assumption; apply Hj'; assumption.
Qed.

(** ** Sending a command twice *)

Lemma set_palette_entry_twice (i r g b : Z) (st : State) :
  set_palette_entry i r g b (set_palette_entry i r g b st)
  = set_palette_entry i r g b st.
Proof.
  unfold set_palette_entry. cbn. rewrite !list_insert_insert_eq. reflexivity.
Qed.

Lemma set_palette_entry_comm (i j r g b r' g' b' : Z) (st : State) :
  0 <= j < i ->
  set_palette_entry i r g b (set_palette_entry j r' g' b' st)
  = set_palette_entry j r' g' b' (set_palette_entry i r g b st).
Proof.
  intros Hij. unfold set_palette_entry. cbn.
  rewrite !(list_insert_insert_ne _ (Z.to_nat i) (Z.to_nat j)) by lia. reflexivity.
Qed.

Lemma parsePalette_loop_entry_comm (cnt : nat) :
  forall i ptr st j r g b,
    0 <= j < i ->
    parsePalette_loop cnt i ptr (set_palette_entry j r g b st) =
    (set_palette_entry j r g b (parsePalette_loop cnt i ptr st).1,
     (parsePalette_loop cnt i ptr st).2).
Proof.
  induction cnt as [|cnt IH]; intros i ptr st j r g b Hj; cbn [parsePalette_loop];
    [reflexivity|].
  destruct (strlen ptr <? 6); [reflexivity|].
  rewrite set_palette_entry_comm by lia. apply IH. lia.
Qed.

Lemma parsePalette_loop_idem (cnt : nat) :
  forall i ptr st,
    0 <= i ->
    parsePalette_loop cnt i ptr (parsePalette_loop cnt i ptr st).1
    = parsePalette_loop cnt i ptr st.
Proof.
  induction cnt as [|cnt IH]; intros i ptr st Hi; cbn [parsePalette_loop];
    [reflexivity|].
  destruct (strlen ptr <? 6) eqn:Hlen; [reflexivity|].
  match goal with
  | |- _ = parsePalette_loop cnt ?i' ?p' (set_palette_entry ?k ?r ?g ?b st) =>
      set (ptr' := p');
      set (W := set_palette_entry k r g b);
      pose proof (IH i' ptr' (W st) ltac:(lia)) as Hidem;
      pose proof (parsePalette_loop_entry_comm cnt i' ptr' (W st) k r g b
                    ltac:(lia)) as Hcomm
  end.
  fold W in Hcomm. unfold W at 1 in Hcomm. 
  rewrite set_palette_entry_twice in Hcomm. fold W in Hcomm.
  apply (f_equal fst) in Hcomm. cbn [fst] in Hcomm.
  rewrite <- Hcomm. exact Hidem.
Qed.

Lemma parsePalette_loop_commit (n : Z) (cnt : nat) :
  forall i ptr st,
    parsePalette_loop cnt i ptr (commit_palette n st) =
    (commit_palette n (parsePalette_loop cnt i ptr st).1,
     (parsePalette_loop cnt i ptr st).2).
Proof.
  induction cnt as [|cnt IH]; intros i ptr st; cbn [parsePalette_loop];
    [reflexivity|].
  destruct (strlen ptr <? 6); [reflexivity|].
  match goal with
  | |- parsePalette_loop _ ?i' ?p' (set_palette_entry ?j ?r ?g ?b _) = _ =>
      exact (IH i' p' (set_palette_entry j r g b st))
  end.
Qed.

Lemma parsePalette_idem (data : cstring) (st : State) :
  parsePalette data (parsePalette data st) = parsePalette data st.
Proof.
  unfold parsePalette.
  destruct ((_ <? _) || (_ <? _)) eqn:Hn; [reflexivity|].
  destruct (strchr _ _) as [ptr|] eqn:Hsep; [|reflexivity].
  pose proof (parsePalette_loop_idem (Z.to_nat (atoi (drop 2 data))) 0
                (drop 1 ptr) st ltac:(lia)) as Hidem.
  destruct (parsePalette_loop _ _ _ st) as [st' fin] eqn:E. cbn [fst] in Hidem.
  destruct fin.
  - rewrite parsePalette_loop_commit, Hidem. reflexivity.
  - rewrite Hidem. reflexivity.
Qed.

Lemma parseSingle_idem (data : cstring) (st : State) :
  parseSingle data (parseSingle data st) = parseSingle data st.
Proof.
  unfold parseSingle. destruct (sscanf_d_d_d data) as [count [[r g] b]].
  destruct (count =? 3); reflexivity.
Qed.

(** X5: sending the same line twice is the same as sending it once: both
    parsers and the dispatch of a complete line are idempotent on every state
    and for every text, accepted or not, and so is the frame a render would
    show. *)
Theorem commands_idempotent (line : list Z) (st : State) :
  parsePalette line (parsePalette line st) = parsePalette line st /\
  parseSingle line (parseSingle line st) = parseSingle line st /\
  apply_command line (apply_command line st) = apply_command line st /\
  frame_of (apply_command line (apply_command line st))
  = frame_of (apply_command line st).
Proof.
  split; [apply parsePalette_idem|]. split; [apply parseSingle_idem|].
  assert (H : apply_command line (apply_command line st) = apply_command line st).
  { unfold apply_command.
    destruct (_ && _); [apply parsePalette_idem | apply parseSingle_idem]. }
  split; [exact H | rewrite H; reflexivity].
Qed.

(** ** More on the framer *)

Lemma framer_char_terminator (t : Z) (st : State) :
  terminator t ->
  framer_char (char_of_byte t) st =
  if 0 <? bufferPos st
  then (set_bufferPos 0 (dispatch st), [EvPin13 true])
  else (set_bufferPos 0 st, []).
Proof.
  intros Ht. unfold framer_char.
  replace ((char_of_byte t =? LF) || (char_of_byte t =? CR)) with true
    by (destruct Ht as [-> | ->]; reflexivity).
  reflexivity.
Qed.

Lemma framer_char_terminator_pos (t : Z) (st : State) :
  terminator t -> bufferPos (framer_char (char_of_byte t) st).1 = 0.
Proof.
  intros Ht. rewrite (framer_char_terminator t st Ht).
  destruct (0 <? bufferPos st); reflexivity.
Qed.

(** X6: a run of line terminators acts as its first one: the first
    terminator dispatches the buffered line (if there is one) and empties the
    buffer, the following ones only get read; on an empty buffer the whole run
    changes nothing.  So a line ended by CR LF is dispatched once. *)
Theorem terminator_run_acts_once (t : Z) (ts : list Z) (st : State) :
  terminator t -> Forall terminator ts ->
  drain (t :: ts) st =
    ((framer_char (char_of_byte t) st).1,
     EvRead t :: (framer_char (char_of_byte t) st).2 ++ (EvRead <$> ts)) /\
  bufferPos (drain (t :: ts) st).1 = 0 /\
  (bufferPos st = 0 -> drain (t :: ts) st = (st, EvRead <$> t :: ts)).
Proof.
  intros Ht Hts.
  assert (H : drain (t :: ts) st =
    ((framer_char (char_of_byte t) st).1,
     EvRead t :: (framer_char (char_of_byte t) st).2 ++ (EvRead <$> ts))).
  { cbn [drain].
    pose proof (framer_char_terminator_pos t st Ht) as Hpos.
    destruct (framer_char (char_of_byte t) st) as [st1 ev]. cbn [fst snd] in *.
    rewrite (drain_terminators ts st1 Hpos Hts). reflexivity. }
  split; [exact H|]. split.
  - rewrite H. cbn [fst]. apply framer_char_terminator_pos, Ht.
  - intros Hpos. apply drain_terminators; [exact Hpos|].
    constructor; assumption.
Qed.

Lemma terminator_run_acts_once_witness :
  terminator CR /\ Forall terminator [LF] /\
  bufferPos (drain [CR; LF] full_line_state).1 = 0.
Proof.
  assert (H1 : terminator CR) by (right; reflexivity).
  assert (H2 : Forall terminator [LF])
    by (constructor; [left; reflexivity | constructor]).
  split; [exact H1|]. split; [exact H2|].
  exact (proj1 (proj2 (terminator_run_acts_once CR [LF] full_line_state H1 H2))).
Defined.

(** Once 510 characters are buffered, ordinary bytes are read and dropped. *)
Lemma drain_dropped (bytes : list Z) :
  forall st,
    bufferPos st = 510 -> Forall plain bytes ->
    drain bytes st = (st, EvRead <$> bytes).
Proof.
  induction bytes as [|b bytes IH]; intros st Hpos Hplain; [reflexivity|].
  apply Forall_cons in Hplain as [[Hlf Hcr] Hplain].
  cbn [drain]. unfold framer_char.
  destruct (Z.eqb_spec (char_of_byte b) LF); [contradiction|].
  destruct (Z.eqb_spec (char_of_byte b) CR); [contradiction|]. cbn [orb].
  rewrite Hpos. cbn [Z.ltb Z.compare Pos.compare Pos.compare_cont].
  rewrite (IH st Hpos Hplain). reflexivity.
Qed.

(** A terminator run after a buffered line dispatches the command the
    buffered characters spell. *)
Lemma drain_terminated_buffer (t : Z) (ts : list Z) (line : list Z) (st : State) :
  wf st -> line <> [] ->
  take (Z.to_nat (bufferPos st)) (inputBuffer st) = line ->
  terminator t -> Forall terminator ts ->
  (drain (t :: ts) st).1 =
  set_input (<[Z.to_nat (bufferPos st) := 0]> (inputBuffer st)) 0
            (apply_command line st).
Proof.
  intros Hwf Hne Htake Ht Hts.
  assert (Hpos : 0 < bufferPos st).
  { destruct (Z.ltb_spec 0 (bufferPos st)) as [|Hle]; [assumption|].
    replace (Z.to_nat (bufferPos st)) with 0%nat in Htake by lia.
    rewrite take_0 in Htake. congruence. }
  cbn [drain]. rewrite (framer_char_terminator t st Ht).
  destruct (Z.ltb_spec 0 (bufferPos st)); [|lia].
  rewrite (dispatch_line st line Hwf Hne Htake).
  match goal with |- context [drain ts ?s] =>
    rewrite (drain_terminators ts s eq_refl Hts) end.
  reflexivity.
Qed.

(** X7: a line of any length that arrives on an empty line buffer is
    processed as its first 510 characters: the bytes beyond them are dropped,
    and the terminator run dispatches the command those 510 characters (or the
    whole line when it is shorter) spell. *)
Theorem long_line_truncated_to_510 (line ts : list Z) (t : Z) (st : State) :
  wf st -> bufferPos st = 0 ->
  Forall plain line -> line <> [] ->
  terminator t -> Forall terminator ts ->
  exists buf',
    length buf' = length (inputBuffer st) /\
    (drain (line ++ t :: ts) st).1 =
    set_input buf' 0 (apply_command (char_of_byte <$> take 510 line) st).
Proof.
  intros Hwf Hpos Hplain Hne Ht Hts.
  replace (line ++ t :: ts) with (take 510 line ++ drop 510 line ++ t :: ts)
    by (rewrite app_assoc, take_drop; reflexivity).
  assert (Hlen : (length (take 510 line) <= 510)%nat)
    by (rewrite length_take; lia).
  destruct (drain_plain (take 510 line) st Hwf) as (buf1 & Hd & Hl1 & Htk).
  { apply Forall_take, Hplain. }
  { lia. }
  rewrite Hpos in Hd, Htk. rewrite Z.add_0_l in Hd.
  cbn [Z.to_nat Nat.add take app] in Htk.
  rewrite drain_app, Hd. cbn [fst].
  set (st1 := set_input buf1 (Z.of_nat (length (take 510 line))) st).
  assert (Hwf1 : wf st1) by (apply set_input_wf; [assumption | assumption | lia]).
  rewrite drain_app.
  assert (Hdrop : drain (drop 510 line) st1 = (st1, EvRead <$> drop 510 line)).
  { destruct (decide (length line <= 510)%nat) as [Hshort|Hlong].
    - rewrite drop_ge by lia. reflexivity.
    - apply drain_dropped; [|apply Forall_drop, Hplain].
      subst st1. cbn [bufferPos set_input]. rewrite length_take. lia. }
  rewrite Hdrop. cbn [fst].
  rewrite (drain_terminated_buffer t ts (char_of_byte <$> take 510 line) st1 Hwf1).
  - subst st1. cbn [bufferPos inputBuffer set_input].
    rewrite apply_command_set_input.
    exists (<[Z.to_nat (Z.of_nat (length (take 510 line))) := 0]> buf1).
    split; [rewrite length_insert; exact Hl1 | reflexivity].
  - destruct line; [congruence | discriminate].
  - subst st1. cbn [bufferPos inputBuffer set_input]. rewrite Nat2Z.id. exact Htk.
  - exact Ht.
  - exact Hts.
Qed.

Lemma long_line_truncated_to_510_witness :
  wf initial /\ bufferPos initial = 0 /\
  Forall plain (replicate 600 (ch "7")) /\ replicate 600 (ch "7") <> [] /\
  terminator LF /\ Forall terminator [] /\
  exists buf',
    length buf' = length (inputBuffer initial) /\
    (drain (replicate 600 (ch "7") ++ [LF]) initial).1 =
    set_input buf' 0
      (apply_command (char_of_byte <$> take 510 (replicate 600 (ch "7"))) initial).
Proof.
  assert (H1 : Forall plain (replicate 600 (ch "7")))
    by (apply Forall_replicate; split; vm_compute; discriminate).
  assert (H2 : replicate 600 (ch "7") <> []) by discriminate.
  assert (H3 : terminator LF) by (left; reflexivity).
  assert (H4 : Forall terminator []) by constructor.
  split; [exact wf_initial|]. split; [reflexivity|].
  split; [exact H1|]. split; [exact H2|]. split; [exact H3|]. split; [exact H4|].
  exact (long_line_truncated_to_510 (replicate 600 (ch "7")) [] LF initial
           wf_initial eq_refl H1 H2 H3 H4).
Defined.

(** X8: the framer resynchronises at every terminator: whatever the line
    buffer held and whatever bytes arrived before, once a terminator has been
    read, a following complete line is dispatched as exactly its own
    command. *)
Theorem framer_resynchronises (junk : list Z) (t : Z) (l : list Z * list Z)
    (st : State) :
  wf st -> terminator t -> complete_line l ->
  let st1 := (drain (junk ++ [t]) st).1 in
  bufferPos st1 = 0 /\
  exists buf',
    (drain (junk ++ t :: l.1 ++ l.2) st).1 =
    set_input buf' 0 (apply_command (char_of_byte <$> l.1) st1).
Proof.
  intros Hwf Ht Hl st1.
  assert (Hpos : bufferPos st1 = 0).
  { subst st1. rewrite drain_app. cbn [fst drain].
    pose proof (framer_char_terminator_pos t (drain junk st).1 Ht) as H.
    destruct (framer_char _ _) as [s ev]. exact H. }
  split; [exact Hpos|].
  assert (Hwf1 : wf st1) by (apply drain_wf, Hwf).
  destruct (drain_complete_line l st1 Hwf1 Hpos Hl) as (buf' & _ & Hd).
  exists buf'. rewrite <- Hd.
  change (junk ++ t :: l.1 ++ l.2) with (junk ++ [t] ++ (l.1 ++ l.2)).
  rewrite app_assoc, drain_app. reflexivity.
Qed.

Lemma framer_resynchronises_witness :
  wf full_line_state /\ terminator LF /\
  complete_line (of_string "10,20,30", [CR; LF]) /\
  currentB (drain (of_string "%%garbage" ++ LF :: of_string "10,20,30" ++ [CR; LF])
              full_line_state).1 = 27.
Proof.
  assert (Hwf : wf full_line_state) by (apply drain_wf, wf_initial).
  assert (Ht : terminator LF) by (left; reflexivity).
  assert (Hl : complete_line (of_string "10,20,30", [CR; LF])).
  { split; [|split; [cbn; lia|split; [discriminate|]]].
    - cbn [fst of_string].
      repeat first [apply Forall_nil_2
                   | apply Forall_cons_2; [split; vm_compute; discriminate|]].
    - apply Forall_cons_2; [right; reflexivity|].
      apply Forall_cons_2; [left; reflexivity | constructor]. }
  split; [exact Hwf|]. split; [exact Ht|]. split; [exact Hl|].
  destruct (framer_resynchronises (of_string "%%garbage") LF
              (of_string "10,20,30", [CR; LF]) full_line_state Hwf Ht Hl)
    as (_ & buf' & Hd).
  cbn [fst snd] in Hd. rewrite Hd. vm_compute. reflexivity.
Defined.

(** ** Input split over several passes *)

Ltac follows_tac :=
  unfold follows, same_parser_state in *;
  repeat match goal with
  | s : State |- _ => destruct s
  end;
  cbn in *; intuition (subst; congruence).

Lemma follows_refl (st : State) : follows st st.
Proof. follows_tac. Qed.

Lemma parsePalette_loop_follows (cnt : nat) :
  forall i ptr st st',
    follows st st' ->
    follows (parsePalette_loop cnt i ptr st).1 (parsePalette_loop cnt i ptr st').1 /\
    (parsePalette_loop cnt i ptr st).2 = (parsePalette_loop cnt i ptr st').2.
Proof.
  induction cnt as [|cnt IH]; intros i ptr st st' H; cbn [parsePalette_loop];
    [split; [exact H | reflexivity]|].
  destruct (strlen ptr <? 6); [split; [exact H | reflexivity]|].
  apply IH. clear IH. follows_tac.
Qed.

Lemma parsePalette_follows (data : cstring) (st st' : State) :
  follows st st' -> follows (parsePalette data st) (parsePalette data st').
Proof.
  intros H. unfold parsePalette.
  destruct ((_ <? _) || (_ <? _)); [exact H|].
  destruct (strchr _ _) as [ptr|]; [|exact H].
  destruct (parsePalette_loop_follows (Z.to_nat (atoi (drop 2 data))) 0
              (drop 1 ptr) st st' H) as [Hf Hfin].
  destruct (parsePalette_loop _ _ _ st) as [s1 f1].
  destruct (parsePalette_loop _ _ _ st') as [s2 f2].
  cbn [fst snd] in *. subst f2. destruct f1; [|exact Hf].
  clear H. follows_tac.
Qed.

Lemma parseSingle_follows (data : cstring) (st st' : State) :
  follows st st' -> follows (parseSingle data st) (parseSingle data st').
Proof.
  intros H. unfold parseSingle.
  destruct (sscanf_d_d_d data) as [count [[r g] b]].
  destruct (count =? 3); [|exact H]. follows_tac.
Qed.

Lemma dispatch_follows (st st' : State) :
  follows st st' -> follows (dispatch st) (dispatch st').
Proof.
  intros H. unfold dispatch.
  assert (Hp : follows (put_char 0 (bufferPos st) st) (put_char 0 (bufferPos st') st'))
    by follows_tac.
  assert (Hb : inputBuffer (put_char 0 (bufferPos st') st')
               = inputBuffer (put_char 0 (bufferPos st) st))
    by (destruct Hp as [Hp _]; apply Hp).
  rewrite Hb.
  destruct (_ && _); [apply parsePalette_follows | apply parseSingle_follows];
    exact Hp.
Qed.

Lemma framer_char_follows (c : Z) (st st' : State) :
  follows st st' ->
  follows (framer_char c st).1 (framer_char c st').1 /\
  (framer_char c st).2 = (framer_char c st').2.
Proof.
  intros H.
  assert (Hpos : bufferPos st' = bufferPos st) by (destruct H as [H _]; apply H).
  unfold framer_char. rewrite Hpos.
  destruct ((c =? LF) || (c =? CR)).
  - destruct (0 <? bufferPos st); cbn [fst snd]; (split; [|reflexivity]).
    + pose proof (dispatch_follows st st' H) as Hd. clear H. follows_tac.
    + follows_tac.
  - destruct (bufferPos st <? 510); cbn [fst snd]; (split; [|reflexivity]);
      [follows_tac | exact H].
Qed.

Lemma drain_follows (serial : list Z) :
  forall st st',
    follows st st' ->
    follows (drain serial st).1 (drain serial st').1 /\
    (drain serial st).2 = (drain serial st').2.
Proof.
  induction serial as [|b serial IH]; intros st st' H; cbn [drain];
    [split; [exact H | reflexivity]|].
  destruct (framer_char_follows (char_of_byte b) st st' H) as [Hf Hev].
  destruct (framer_char _ st) as [s1 e1], (framer_char _ st') as [s2 e2].
  cbn [fst snd] in *. subst e2.
  destruct (IH s1 s2 Hf) as [Hd Hevs].
  destruct (drain serial s1) as [s3 e3], (drain serial s2) as [s4 e4].
  cbn [fst snd] in *. subst e4. split; [exact Hd | reflexivity].
Qed.

Lemma frame_of_same_parser_state (st st' : State) :
  same_parser_state st st' -> frame_of st' = frame_of st.
Proof.
  intros (Hm & Hs & Hr & Hg & Hb & Hcr & Hcg & Hcb & _).
  unfold frame_of. apply list_fmap_ext. intros _ i _.
  unfold pixel. rewrite Hm, Hs, Hr, Hg, Hb, Hcr, Hcg, Hcb. reflexivity.
Qed.

(** X9: the bytes of the serial stream may be split over passes at any
    point.  Draining [a] in one pass and [b] in the next leaves the palette,
    the flat colour, the mode and the line buffer exactly as draining
    [a ++ b] in a single pass does; the same bytes are read; and when the
    second pass transmits a frame, the single pass transmits that same frame
    and ends with the same frame buffer. *)
Theorem split_input_same_parse (a b : list Z) (st : State) :
  wf st ->
  exists st1 tr1 st2 tr2 st' tr',
    loop a st = Some (st1, tr1) /\
    loop b st1 = Some (st2, tr2) /\
    loop (a ++ b) st = Some (st', tr') /\
    same_parser_state st2 st' /\
    reads tr1 ++ reads tr2 = reads tr' /\
    (shows tr2 <> [] -> shows tr' = shows tr2 /\ leds st' = leds st2).
Proof.
  intros Hwf.
  destruct (loop_result_shape a st Hwf) as (pre1 & Hl1 & Hs1 & Hr1).
  cbv zeta in Hl1. set (da := (drain a st).1) in *.
  set (st1 := if needsUpdate da
              then set_needsUpdate false (set_leds (frame_of da) da) else da) in *.
  assert (Hwf1 : wf st1).
  { eapply loop_wf; [exact Hwf | exact Hl1]. }
  destruct (loop_result_shape b st1 Hwf1) as (pre2 & Hl2 & Hs2 & Hr2).
  cbv zeta in Hl2. set (d2 := (drain b st1).1) in *.
  destruct (loop_result_shape (a ++ b) st Hwf) as (pre' & Hl' & Hs' & Hr').
  cbv zeta in Hl'. set (d' := (drain (a ++ b) st).1) in *.
  assert (Hf1 : follows st1 da).
  { subst st1. destruct (needsUpdate da) eqn:E; [|apply follows_refl].
    split; [|discriminate]. unfold same_parser_state. cbn. tauto. }
  assert (Hf : follows d2 d').
  { subst d2 d'. rewrite drain_app. cbn [fst]. fold da.
    apply drain_follows, Hf1. }
  destruct Hf as [Hsame Hpend].
  eexists _, _, _, _, _, _.
  split; [exact Hl1|]. split; [exact Hl2|]. split; [exact Hl'|].
  split; [|split].
  - destruct (needsUpdate d2), (needsUpdate d');
      unfold same_parser_state in *; cbn; tauto.
  - unfold reads in *. rewrite !omap_app, Hr1, Hr2, Hr'.
    destruct (needsUpdate da), (needsUpdate d2), (needsUpdate d');
      cbn; rewrite ?app_nil_r; reflexivity.
  - unfold shows in *. rewrite !omap_app, Hs2, Hs'.
    destruct (needsUpdate d2) eqn:E2; [|cbn; congruence].
    rewrite (Hpend eq_refl). intros _. cbn.
    rewrite (frame_of_same_parser_state d2 d' Hsame). split; reflexivity.
Qed.

Lemma split_input_same_parse_witness :
  wf initial /\
  exists st2 st',
    (exists st1 tr1 tr2,
       loop (of_string "P:2:FF00") initial = Some (st1, tr1) /\
       loop (of_string "00:00FF00" ++ [LF]) st1 = Some (st2, tr2)) /\
    (exists tr', loop (of_string "P:2:FF0000:00FF00" ++ [LF]) initial = Some (st', tr')) /\
    leds st' = leds st2.
Proof.
  split; [exact wf_initial|].
  destruct (split_input_same_parse (of_string "P:2:FF00")
              (of_string "00:00FF00" ++ [LF]) initial wf_initial)
    as (st1 & tr1 & st2 & tr2 & st' & tr' & H1 & H2 & H' & _ & _ & Hshow).
  exists st2, st'. split; [exists st1, tr1, tr2; auto|].
  split; [exists tr'; exact H'|].
  apply Hshow.
  assert (E1 : st1 = (drain (of_string "P:2:FF00") initial).1)
    by (vm_compute in H1; injection H1 as <- _; vm_compute; reflexivity).
  subst st1. vm_compute in H2. injection H2 as _ <-. discriminate.
Defined.

(** ** Idle passes *)

Lemma reachable_needsUpdate (st : State) : reachable st -> needsUpdate st = false.
Proof.
  induction 1 as [|st serial st' tr Hr IH Hloop]; [reflexivity|].
  rewrite (loop_spec serial st (reachable_wf st Hr)) in Hloop. cbv zeta in Hloop.
  destruct (needsUpdate (drain serial st).1) eqn:E;
    injection Hloop as <- _; [reflexivity | exact E].
Qed.

(** X10: between passes no render is ever pending, so a pass that finds no
    input transmits nothing and leaves the whole state, frame buffer included,
    as it is; the same holds for a pass that reads only line terminators on
    an empty line buffer. *)
Theorem idle_pass_transmits_nothing (st : State) :
  reachable st ->
  needsUpdate st = false /\
  loop [] st = Some (st, [EvPin13 false]) /\
  (forall ts,
     bufferPos st = 0 -> Forall terminator ts ->
     loop ts st = Some (st, (EvRead <$> ts) ++ [EvPin13 false])).
Proof.
  intros Hr.
  pose proof (reachable_needsUpdate st Hr) as Hnu.
  pose proof (reachable_wf st Hr) as Hwf.
  split; [exact Hnu|]. split.
  - rewrite (loop_spec [] st Hwf). cbn. rewrite Hnu. reflexivity.
  - intros ts Hpos Hts. rewrite (loop_spec ts st Hwf).
    rewrite (drain_terminators ts st Hpos Hts). cbn [fst snd].
    rewrite Hnu. reflexivity.
Qed.

Lemma idle_pass_transmits_nothing_witness :
  reachable initial /\ loop [] initial = Some (initial, [EvPin13 false]).
Proof.
  split; [exact reach_initial|].
  exact (proj1 (proj2 (idle_pass_transmits_nothing initial reach_initial))).
Defined.

(** ** Several lines in one pass *)

Lemma wire_app (l1 l2 : list (list Z * list Z)) :
  wire (l1 ++ l2) = wire l1 ++ wire l2.
Proof. unfold wire. rewrite fmap_app, concat_app. reflexivity. Qed.

Lemma flat_command_complete (r g b : Z) :
  channel r -> channel g -> channel b ->
  complete_line (flat_command r g b, [LF]).
Proof.
  intros Hr Hg Hb.
  destruct (flat_command_chars r g b Hr Hg Hb) as [Hchars Hlen].
  split; [|split; [exact Hlen|split; [discriminate|]]]; cbn [fst snd].
  - eapply Forall_impl; [exact Hchars|]. intros c Hc. apply ordinary_char, Hc.
  - constructor; [left; reflexivity | constructor].
Qed.

(** X14: the last command of a burst decides the frame: when a pass drains
    any number of complete lines (accepted or not, palette or flat) followed
    by a flat-colour line [r,g,b] with byte values, it transmits exactly one
    frame, uniformly [(r, 3g/4, 9b/10)]. *)
Theorem last_flat_command_wins (lines : list (list Z * list Z)) (r g b : Z)
    (st : State) :
  wf st -> bufferPos st = 0 -> Forall complete_line lines ->
  channel r -> channel g -> channel b ->
  exists st' tr,
    loop (wire lines ++ flat_command r g b ++ [LF]) st = Some (st', tr) /\
    shows tr = [leds st'] /\
    leds st' =
      replicate (Z.to_nat NUM_LEDS) {| red := r; green := g * 3 / 4; blue := b * 9 / 10 |} /\
    paletteMode st' = false.
Proof.
  intros Hwf Hpos Hlines Hr Hg Hb.
  pose proof (flat_command_complete r g b Hr Hg Hb) as Hflat.
  assert (Hall : Forall complete_line (lines ++ [(flat_command r g b, [LF])]))
    by (apply Forall_app_2; [assumption | constructor; [assumption | constructor]]).
  destruct (drain_lines _ st Hwf Hpos Hall) as (buf' & _ & Hd).
  rewrite wire_app in Hd. unfold wire at 2 in Hd.
  cbn [fmap list_fmap concat fst snd] in Hd. rewrite app_nil_r in Hd.
  unfold apply_lines in Hd. rewrite fold_left_app in Hd. cbn [fold_left fst] in Hd.
  fold (apply_lines lines st) in Hd. rewrite apply_flat_command in Hd by assumption.
  destruct (loop_result_shape (wire lines ++ flat_command r g b ++ [LF]) st Hwf)
    as (pre & Hloop & Hshows & _).
  cbv zeta in Hloop. rewrite Hd in Hloop.
  cbn [needsUpdate set_input commit_single] in Hloop.
  rewrite frame_of_flat in Hloop by reflexivity.
  cbn [currentR currentG currentB set_input commit_single] in Hloop.
  destruct (calibrate_exact r Hr) as (Er & _ & _).
  destruct (calibrate_exact g Hg) as (_ & Eg & _).
  destruct (calibrate_exact b Hb) as (_ & _ & Eb).
  rewrite Er, Eg, Eb in Hloop.
  assert (Hpx : CRGB_of r (g * 3 / 4) (b * 9 / 10)
                = {| red := r; green := g * 3 / 4; blue := b * 9 / 10 |}).
  { unfold CRGB_of, channel in *.
    assert (0 <= g * 3 / 4 <= 255)
      by (split; [apply Z.div_pos | apply Z.div_le_upper_bound]; lia).
    assert (0 <= b * 9 / 10 <= 255)
      by (split; [apply Z.div_pos | apply Z.div_le_upper_bound]; lia).
    rewrite !Z.mod_small by lia. reflexivity. }
  rewrite Hpx in Hloop.
  eexists _, _. split; [exact Hloop|].
  cbn [leds paletteMode set_needsUpdate set_leds set_input commit_single].
  split; [unfold shows in *; rewrite omap_app, Hshows; reflexivity|].
  split; reflexivity.
Qed.

Lemma last_flat_command_wins_witness :
  wf initial /\ bufferPos initial = 0 /\
  Forall complete_line [(red_green_line, [LF]); (truncated_line, [CR; LF])] /\
  channel 10 /\ channel 20 /\ channel 30 /\
  exists st' tr,
    loop (wire [(red_green_line, [LF]); (truncated_line, [CR; LF])]
            ++ flat_command 10 20 30 ++ [LF]) initial = Some (st', tr) /\
    shows tr = [leds st'] /\
    leds st' = replicate 256 {| red := 10; green := 15; blue := 27 |}.
Proof.
  assert (Hc : forall v, 0 <= v <= 255 -> channel v) by (intros v H; exact H).
  assert (H10 : channel 10) by (apply Hc; lia).
  assert (H20 : channel 20) by (apply Hc; lia).
  assert (H30 : channel 30) by (apply Hc; lia).
  assert (Hplain : forall s, Forall (fun c => 32 <= c < 128) s -> Forall plain s).
  { intros s Hs. eapply Forall_impl; [exact Hs|]. cbn beta.
    intros c Hc'. unfold plain, char_of_byte, LF, CR.
    rewrite Z.mod_small by lia. destruct (Z.leb_spec 128 c); lia. }
  assert (Hlines : Forall complete_line
                     [(red_green_line, [LF]); (truncated_line, [CR; LF])]).
  { apply Forall_cons_2; [|apply Forall_cons_2; [|constructor]].
    - split; [|split; [cbn; lia|split; [discriminate|]]]; cbn [fst snd].
      + apply Hplain. unfold red_green_line. cbn [of_string].
        repeat first [apply Forall_nil_2 | apply Forall_cons_2; [vm_compute; split; [discriminate|reflexivity]|]].
      + apply Forall_cons_2; [left; reflexivity | constructor].
    - split; [|split; [cbn; lia|split; [discriminate|]]]; cbn [fst snd].
      + apply Hplain. unfold truncated_line. cbn [of_string].
        repeat first [apply Forall_nil_2 | apply Forall_cons_2; [vm_compute; split; [discriminate|reflexivity]|]].
      + apply Forall_cons_2; [right; reflexivity|].
        apply Forall_cons_2; [left; reflexivity | constructor]. }
  split; [exact wf_initial|]. split; [reflexivity|]. split; [exact Hlines|].
  split; [exact H10|]. split; [exact H20|]. split; [exact H30|].
  destruct (last_flat_command_wins _ 10 20 30 initial wf_initial eq_refl Hlines
              H10 H20 H30) as (st' & tr & Hloop & Hshow & Hleds & _).
  exists st', tr. split; [exact Hloop|]. split; [exact Hshow|].
  rewrite Hleds. vm_compute. reflexivity.
Defined.

(** ** Lines that are no command *)

Lemma scan_int_fails_at_head (s : cstring) :
  match s with
  | [] => True
  | c :: _ => isspace c = false /\ isdigit c = false /\
              c <> ch "+" /\ c <> ch "-"
  end ->
  scan_int s = None.
Proof.
  unfold scan_int. destruct s as [|c s]; [reflexivity|].
  intros (Hsp & Hd & Hplus & Hminus).
  cbn [skip_space]. rewrite Hsp. cbn [scan_sign].
  destruct (Z.eqb_spec c (ch "-")); [contradiction|].
  destruct (Z.eqb_spec c (ch "+")); [contradiction|].
  rewrite Hd. reflexivity.
Qed.

Lemma apply_command_unrecognised (line : list Z) (st : State) :
  let c := nth 0 line 0 in
  isspace c = false -> isdigit c = false -> c <> ch "+" -> c <> ch "-" ->
  ~ (c = ch "P" /\ nth 1 line 0 = ch ":") ->
  apply_command line st = st.
Proof.
  cbv zeta. intros Hsp Hd Hplus Hminus HP.
  unfold apply_command.
  destruct (Z.eqb_spec (nth 0 line 0) (ch "P")) as [E0|];
    [destruct (Z.eqb_spec (nth 1 line 0) (ch ":")); [tauto|]|];
    cbn [andb]; apply parseSingle_reject; unfold sscanf_d_d_d;
    rewrite scan_int_fails_at_head;
    try (destruct (skip_space (c_str line)); cbn; discriminate).
  all: destruct line as [|c line]; [exact I|]; cbn [nth c_str] in *;
    destruct (c =? 0); [exact I | auto].
Qed.

(** X15: a line that neither starts with [P:] nor starts like a number (its
    first character is not white space, a digit or a sign) is no command:
    from any reachable state with an empty line buffer the pass that reads the
    line leaves palette, flat colour, mode and frame buffer unchanged and
    transmits nothing. *)
Theorem unrecognised_line_ignored (l : list Z * list Z) (st : State) :
  reachable st -> bufferPos st = 0 -> complete_line l ->
  let c := nth 0 (char_of_byte <$> l.1) 0 in
  isspace c = false -> isdigit c = false -> c <> ch "+" -> c <> ch "-" ->
  ~ (c = ch "P" /\ nth 1 (char_of_byte <$> l.1) 0 = ch ":") ->
  exists buf' tr,
    loop (l.1 ++ l.2) st = Some (set_input buf' 0 st, tr) /\ shows tr = [].
Proof.
  intros Hr Hpos Hl c Hsp Hd Hplus Hminus HP.
  pose proof (reachable_wf st Hr) as Hwf.
  pose proof (reachable_needsUpdate st Hr) as Hnu.
  destruct (drain_complete_line l st Hwf Hpos Hl) as (buf' & _ & Hdr).
  rewrite (apply_command_unrecognised _ st Hsp Hd Hplus Hminus HP) in Hdr.
  destruct (loop_result_shape (l.1 ++ l.2) st Hwf) as (pre & Hloop & Hshows & _).
  cbv zeta in Hloop. rewrite Hdr in Hloop.
  cbn [needsUpdate set_input] in Hloop. rewrite Hnu in Hloop.
  exists buf', (pre ++ []). split; [exact Hloop|].
  rewrite app_nil_r. exact Hshows.
Qed.

Lemma unrecognised_line_ignored_witness :
  reachable initial /\
  exists buf' tr,
    loop (of_string "garbage" ++ [LF]) initial = Some (set_input buf' 0 initial, tr) /\
    shows tr = [].
Proof.
  split; [exact reach_initial|].
  assert (Hl : complete_line (of_string "garbage", [LF])).
  { split; [|split; [cbn; lia|split; [discriminate|]]]; cbn [fst snd of_string].
    - repeat first [apply Forall_nil_2
                   | apply Forall_cons_2; [split; vm_compute; discriminate|]].
    - apply Forall_cons_2; [left; reflexivity | constructor]. }
  apply (unrecognised_line_ignored (of_string "garbage", [LF]) initial
           reach_initial eq_refl Hl);
    try reflexivity; try (vm_compute; discriminate).
  intros [H _]. vm_compute in H. discriminate.
Defined.

(** ** Accepted palette commands *)

Lemma hex_char_printable (upper : bool) (v : Z) :
  0 <= v < 16 -> printable (hex_char upper v) /\ hex_char upper v <> ch ":".
Proof.
  intros Hv. unfold printable, hex_char. norm_ch.
  destruct (Z.ltb_spec v 10); destruct upper; lia.
Qed.

Lemma nibbles_of_channel (b : Z) :
  channel b -> 0 <= b / 16 < 16 /\ 0 <= b mod 16 < 16.
Proof.
  unfold channel. intros Hb. split.
  - split; [apply Z.div_pos; lia | apply Z.div_lt_upper_bound; lia].
  - apply Z.mod_pos_bound. lia.
Qed.

Lemma atoi_decimal (n : Z) (rest : cstring) :
  0 <= n < 32768 -> no_digit_head rest -> atoi (decimal n ++ rest) = n.
Proof.
  intros Hn Hrest.
  destruct (decimal_aux_spec (S (Z.to_nat n)) n [] ltac:(lia) ltac:(lia)
              ltac:(constructor)) as (Hds & Hne & Hv).
  fold (decimal n) in *.
  destruct (decimal n) as [|d ds] eqn:E; [congruence|].
  pose proof Hds as Hd. apply Forall_cons in Hd as [Hd _].
  destruct (isdigit_not_other d Hd) as (Hsp & Hminus & Hplus & _).
  unfold atoi. cbn [app skip_space]. rewrite Hsp. cbn [scan_sign].
  rewrite Hminus, Hplus.
  change (d :: ds ++ rest) with ((d :: ds) ++ rest).
  rewrite (scan_digits_app (d :: ds) 0 rest Hds Hrest), Hv. cbn [fold_left].
  unfold wrap16. rewrite Z.mod_small by lia. lia.
Qed.

Lemma strchr_after_digits (ds rest : cstring) :
  Forall (fun c => isdigit c = true) ds ->
  strchr (ds ++ ch ":" :: rest) (ch ":") = Some (ch ":" :: rest).
Proof.
  induction 1 as [|d ds Hd _ IH]; [reflexivity|].
  cbn [app strchr].
  assert (Hne : (d =? ch ":") = false).
  { unfold isdigit in Hd. norm_ch. apply andb_prop in Hd as [_ H2].
    apply Z.leb_le in H2. apply Z.eqb_neq. lia. }
  rewrite Hne. exact IH.
Qed.

(** The loop over well-formed entries: all are stored, in order, and nothing
    else changes. *)
Lemma parsePalette_loop_entries (upper : bool) (es : list Entry) :
  forall i ptr trail st,
    (es <> [] -> ptr = entries_text upper es ++ trail) ->
    Forall entry_ok es ->
    (i + length es <= length (paletteR st))%nat ->
    (i + length es <= length (paletteG st))%nat ->
    (i + length es <= length (paletteB st))%nat ->
    let res := parsePalette_loop (length es) (Z.of_nat i) ptr st in
    res.2 = true /\ same_scalars st res.1 /\
    paletteR res.1 =
      take i (paletteR st)
      ++ ((fun e => calibrate (e_r e) RED_FACTOR) <$> es)
      ++ drop (i + length es) (paletteR st) /\
    paletteG res.1 =
      take i (paletteG st)
      ++ ((fun e => calibrate (e_g e) GREEN_FACTOR) <$> es)
      ++ drop (i + length es) (paletteG st) /\
    paletteB res.1 =
      take i (paletteB st)
      ++ ((fun e => calibrate (e_b e) BLUE_FACTOR) <$> es)
      ++ drop (i + length es) (paletteB st).
Proof.
  induction es as [|e es IH]; intros i ptr trail st Hptr Hok HR HG HB.
  - cbn [length parsePalette_loop fmap list_fmap app]. cbv zeta. cbn [fst snd].
    rewrite Nat.add_0_r, !take_drop. unfold same_scalars. tauto.
  - apply Forall_cons in Hok as [(Hr & Hg & Hb) Hok].
    rewrite (Hptr ltac:(discriminate)). clear Hptr.
    cbn [length] in HR, HG, HB.
    destruct (nibbles_of_channel _ Hr) as [Hr1 Hr2].
    destruct (nibbles_of_channel _ Hg) as [Hg1 Hg2].
    destruct (nibbles_of_channel _ Hb) as [Hb1 Hb2].
    cbn [length parsePalette_loop entries_text hex_byte app].
    rewrite <- app_assoc.
    unfold strlen. cbn [length].
    match goal with
    | |- context [?a <? 6] => destruct (Z.ltb_spec a 6); [lia|]
    end.
    unfold at_. cbn [nth drop]. rewrite !drop_0.
    rewrite !hexToByte_hex_chars by assumption.
    set (rest := (if e_sep e then [ch ":"] else []) ++ entries_text upper es ++ trail).
    set (ptr' := if nth 0 rest 0 =? ch ":" then drop 1 rest else rest).
    assert (Hptr' : es <> [] -> ptr' = entries_text upper es ++ trail).
    { intros Hne. subst ptr' rest. destruct (e_sep e); [reflexivity|].
      cbn [app]. destruct es as [|e' es']; [congruence|].
      apply Forall_cons in Hok as [(Hr' & _) _].
      destruct (nibbles_of_channel _ Hr') as [Hn _].
      destruct (hex_char_printable upper _ Hn) as [_ Hcolon].
      cbn [entries_text hex_byte app nth].
      destruct (Z.eqb_spec (hex_char upper (e_r e' / 16)) (ch ":"));
        [contradiction | reflexivity]. }
    set (st1 := set_palette_entry (Z.of_nat i) (calibrate (e_r e) RED_FACTOR)
                  (calibrate (e_g e) GREEN_FACTOR) (calibrate (e_b e) BLUE_FACTOR) st).
    replace (Z.of_nat i + 1) with (Z.of_nat (S i)) by lia.
    specialize (IH (S i) ptr' trail st1 Hptr' Hok).
    cbv zeta in IH. subst st1.
    cbn [paletteR paletteG paletteB set_palette_entry] in IH.
    rewrite !length_insert, Nat2Z.id in IH.
    destruct (IH ltac:(lia) ltac:(lia) ltac:(lia)) as (Hfin & Hs & ER & EG & EB).
    cbv zeta. split; [exact Hfin|]. split.
    { unfold same_scalars in *. cbn in Hs. exact Hs. }
    rewrite ER, EG, EB.
    assert (HiR : (i < length (paletteR st))%nat) by lia.
    assert (HiG : (i < length (paletteG st))%nat) by lia.
    assert (HiB : (i < length (paletteB st))%nat) by lia.
    rewrite (take_S_r _ i _ (list_lookup_insert_eq (paletteR st) i _ HiR)).
    rewrite (take_S_r _ i _ (list_lookup_insert_eq (paletteG st) i _ HiG)).
    rewrite (take_S_r _ i _ (list_lookup_insert_eq (paletteB st) i _ HiB)).
    rewrite !take_insert_ge by lia.
    rewrite !drop_insert_lt by lia.
    cbn [fmap list_fmap].
    replace (S i + length es)%nat with (i + S (length es))%nat by lia.
    rewrite <- !app_assoc. cbn [app]. repeat split; reflexivity.
Qed.

Lemma parsePalette_palette_command (upper : bool) (es : list Entry)
    (trail : cstring) (st : State) :
  wf st -> (1 <= length es <= 49)%nat -> Forall entry_ok es ->
  let n := length es in
  exists st1,
    parsePalette (palette_command upper es trail) st
      = commit_palette (Z.of_nat n) st1 /\
    same_scalars st st1 /\
    paletteR st1 = ((fun e => calibrate (e_r e) RED_FACTOR) <$> es)
                   ++ drop n (paletteR st) /\
    paletteG st1 = ((fun e => calibrate (e_g e) GREEN_FACTOR) <$> es)
                   ++ drop n (paletteG st) /\
    paletteB st1 = ((fun e => calibrate (e_b e) BLUE_FACTOR) <$> es)
                   ++ drop n (paletteB st).
Proof.
  intros Hwf Hn Hok n.
  destruct (decimal_aux_spec (S (Z.to_nat (Z.of_nat n))) (Z.of_nat n) []
              ltac:(lia) ltac:(lia) ltac:(constructor)) as (Hds & _ & _).
  fold (decimal (Z.of_nat n)) in Hds.
  unfold parsePalette, palette_command. fold n. cbn [drop]. rewrite !drop_0.
  rewrite atoi_decimal by (first [lia | reflexivity]).
  destruct (Z.ltb_spec (Z.of_nat n) 1); [lia|].
  destruct (Z.ltb_spec MAX_PALETTE (Z.of_nat n)); [unfold MAX_PALETTE in *; lia|].
  cbn [orb]. rewrite (strchr_after_digits _ _ Hds). cbn [drop]. rewrite ?drop_0.
  rewrite Nat2Z.id.
  pose proof (parsePalette_loop_entries upper es 0 (entries_text upper es ++ trail)
                trail st ltac:(reflexivity) Hok) as Hloop.
  cbv zeta in Hloop. cbn [Z.of_nat Nat.add take app] in Hloop.
  destruct Hloop as (Hfin & Hs & ER & EG & EB).
  { rewrite (wf_paletteR _ Hwf). unfold MAX_PALETTE. lia. }
  { rewrite (wf_paletteG _ Hwf). unfold MAX_PALETTE. lia. }
  { rewrite (wf_paletteB _ Hwf). unfold MAX_PALETTE. lia. }
  fold n in Hfin, Hs, ER, EG, EB |- *.
  change (Z.of_nat 0) with 0 in Hfin, Hs, ER, EG, EB.
  destruct (parsePalette_loop n 0 _ st) as [st1 fin]. cbn [fst snd] in *.
  subst fin. exists st1. auto.
Qed.

(** X3: a well-formed palette command is accepted whole.  For 1 to 49
    colours with byte channels, written as [P:<n>:] and six hexadecimal digits
    per colour (upper or lower case, each colour followed by [:] or not, any
    text after the last colour), the parser sets the palette size to [n],
    turns palette mode and needs-render on, stores for colour [k] the
    calibrated values [(r, 3g/4, 9b/10)] in slot [k], and leaves the slots
    from [n] on, the flat colour, the line buffer and the frame buffer
    unchanged. *)
Theorem parsePalette_accepts_command (upper : bool) (es : list Entry)
    (trail : cstring) (st : State) :
  wf st -> (1 <= length es <= 49)%nat -> Forall entry_ok es ->
  let n := length es in
  let st' := parsePalette (palette_command upper es trail) st in
  paletteMode st' = true /\ needsUpdate st' = true /\
  paletteSize st' = Z.of_nat n /\
  paletteR st' = (e_r <$> es) ++ drop n (paletteR st) /\
  paletteG st' = ((fun e => e_g e * 3 / 4) <$> es) ++ drop n (paletteG st) /\
  paletteB st' = ((fun e => e_b e * 9 / 10) <$> es) ++ drop n (paletteB st) /\
  currentR st' = currentR st /\ currentG st' = currentG st /\
  currentB st' = currentB st /\ inputBuffer st' = inputBuffer st /\
  bufferPos st' = bufferPos st /\ leds st' = leds st.
Proof.
  intros Hwf Hn Hok n st'.
  destruct (parsePalette_palette_command upper es trail st Hwf Hn Hok)
    as (st1 & Hst' & Hs & ER & EG & EB).
  subst st'. fold n in ER, EG, EB. rewrite Hst'.
  cbn [paletteMode needsUpdate paletteSize paletteR paletteG paletteB currentR
       currentG currentB inputBuffer bufferPos leds commit_palette].
  rewrite ER, EG, EB.
  assert (Hext : forall (f g : Entry -> Z),
            (forall e, entry_ok e -> f e = g e) -> f <$> es = g <$> es).
  { intros f g Hfg. apply Forall_fmap_ext_1.
    eapply Forall_impl; [exact Hok|]. exact Hfg. }
  rewrite (Hext _ e_r)
    by (intros e (H & _ & _); apply (calibrate_exact _ H)).
  rewrite (Hext (fun e => calibrate (e_g e) GREEN_FACTOR) (fun e => e_g e * 3 / 4))
    by (intros e (_ & H & _); apply (calibrate_exact _ H)).
  rewrite (Hext (fun e => calibrate (e_b e) BLUE_FACTOR) (fun e => e_b e * 9 / 10))
    by (intros e (_ & _ & H); apply (calibrate_exact _ H)).
  unfold same_scalars in Hs. repeat split; try reflexivity; apply Hs.
Qed.

Lemma sample_entries_ok : Forall entry_ok sample_entries.
Proof.
  unfold sample_entries, entry_ok, channel.
  repeat first [apply Forall_nil_2 | apply Forall_cons_2; [cbn; lia|]].
Qed.

Lemma parsePalette_accepts_command_witness :
  wf initial /\ (1 <= length sample_entries <= 49)%nat /\
  Forall entry_ok sample_entries /\
  palette_command false sample_entries (of_string " tail")
    = of_string "P:3:ff0000:00ff00123456 tail" /\
  take 4 (paletteG (parsePalette (of_string "P:3:ff0000:00ff00123456 tail") initial))
    = [0; 191; 39; 0].
Proof.
  assert (Hn : (1 <= length sample_entries <= 49)%nat) by (cbn; lia).
  split; [exact wf_initial|]. split; [exact Hn|].
  split; [exact sample_entries_ok|].
  split; [vm_compute; reflexivity|].
  destruct (parsePalette_accepts_command false sample_entries (of_string " tail")
              initial wf_initial Hn sample_entries_ok)
    as (_ & _ & _ & _ & HG & _).
  change (palette_command false sample_entries (of_string " tail"))
    with (of_string "P:3:ff0000:00ff00123456 tail") in HG.
  rewrite HG. vm_compute. reflexivity.
Defined.

(** ** A palette command from the wire to the frame *)

Lemma printable_char (c : Z) :
  printable c -> char_of_byte c = c /\ plain c /\ (c =? 0) = false.
Proof.
  unfold printable. intros Hc.
  assert (E : char_of_byte c = c).
  { unfold char_of_byte. rewrite Z.mod_small by lia.
    destruct (Z.leb_spec 128 c); [lia | reflexivity]. }
  unfold plain. rewrite E. unfold LF, CR.
  repeat split; lia.
Qed.

Lemma entries_text_printable (upper : bool) (es : list Entry) :
  Forall entry_ok es ->
  Forall printable (entries_text upper es) /\
  (length (entries_text upper es) <= 7 * length es)%nat.
Proof.
  induction 1 as [|e es (Hr & Hg & Hb) _ [IH1 IH2]]; [split; [constructor | cbn; lia]|].
  destruct (nibbles_of_channel _ Hr) as [Hr1 Hr2].
  destruct (nibbles_of_channel _ Hg) as [Hg1 Hg2].
  destruct (nibbles_of_channel _ Hb) as [Hb1 Hb2].
  cbn [entries_text hex_byte app]. split.
  - repeat (apply Forall_cons_2; [apply hex_char_printable; assumption|]).
    apply Forall_app_2; [|exact IH1].
    destruct (e_sep e); [|constructor].
    apply Forall_cons_2; [unfold printable; norm_ch; lia | constructor].
  - cbn [length]. rewrite length_app. destruct (e_sep e); cbn [length]; lia.
Qed.

Lemma palette_command_line (upper : bool) (es : list Entry) :
  (1 <= length es <= 49)%nat -> Forall entry_ok es ->
  Forall printable (palette_command upper es []) /\
  (0 < length (palette_command upper es []) <= 510)%nat.
Proof.
  intros Hn Hok.
  destruct (entries_text_printable upper es Hok) as [Hp Hl].
  destruct (decimal_aux_spec (S (Z.to_nat (Z.of_nat (length es))))
              (Z.of_nat (length es)) [] ltac:(lia) ltac:(lia) ltac:(constructor))
    as (Hds & _ & _).
  fold (decimal (Z.of_nat (length es))) in Hds.
  pose proof (forall_byte (fun n => (length (decimal n) <=? 3)%nat)
                ltac:(vm_compute; reflexivity) (Z.of_nat (length es)) ltac:(lia))
    as Hdl.
  apply Nat.leb_le in Hdl.
  unfold palette_command. rewrite app_nil_r. split.
  - apply Forall_cons_2; [unfold printable; norm_ch; lia|].
    apply Forall_cons_2; [unfold printable; norm_ch; lia|].
    apply Forall_app_2.
    + eapply Forall_impl; [exact Hds|]. cbn beta. intros c Hc.
      unfold isdigit in Hc. norm_ch. apply andb_prop in Hc as [H1 H2].
      apply Z.leb_le in H1, H2. unfold printable. lia.
    + apply Forall_cons_2; [unfold printable; norm_ch; lia | exact Hp].
  - cbn [length]. rewrite length_app. cbn [length]. lia.
Qed.

Lemma apply_palette_command (upper : bool) (es : list Entry) (st : State) :
  (1 <= length es <= 49)%nat -> Forall entry_ok es ->
  apply_command (char_of_byte <$> palette_command upper es []) st
  = parsePalette (palette_command upper es []) st.
Proof.
  intros Hn Hok.
  destruct (palette_command_line upper es Hn Hok) as [Hp _].
  rewrite fmap_fixed
    by (eapply Forall_impl; [exact Hp|]; intros c Hc; apply printable_char, Hc).
  unfold apply_command.
  rewrite c_str_no_nul
    by (eapply Forall_impl; [exact Hp|]; intros c Hc; apply printable_char, Hc).
  reflexivity.
Qed.

(** X11: a palette command, from the wire to the strip.  For 1 to 49
    colours with byte channels, the line [P:<n>:<hex6>...] (either case, [:]
    after a colour or not) sent to a sketch with an empty line buffer makes
    the pass transmit exactly one frame, in which every pixel [i] shows the
    calibrated colour [(r, 3g/4, 9b/10)] of the colour number
    [min(i / (NUM_LEDS / n), n - 1)] of the command. *)
Theorem palette_command_frame (upper : bool) (es : list Entry) (st : State) :
  wf st -> bufferPos st = 0 ->
  (1 <= length es <= 49)%nat -> Forall entry_ok es ->
  exists st' tr,
    loop (palette_command upper es [] ++ [LF]) st = Some (st', tr) /\
    shows tr = [leds st'] /\
    length (leds st') = Z.to_nat NUM_LEDS /\
    paletteMode st' = true /\ paletteSize st' = Z.of_nat (length es) /\
    forall i, 0 <= i < NUM_LEDS ->
      exists e,
        es !! Z.to_nat (block_index (Z.of_nat (length es)) i) = Some e /\
        leds st' !! Z.to_nat i =
          Some {| red := e_r e; green := e_g e * 3 / 4; blue := e_b e * 9 / 10 |}.
Proof.
  intros Hwf Hpos Hn Hok.
  destruct (palette_command_line upper es Hn Hok) as [Hp Hlen].
  assert (Hline : complete_line (palette_command upper es [], [LF])).
  { split; [|split; [exact Hlen|split; [discriminate|]]]; cbn [fst snd].
    - eapply Forall_impl; [exact Hp|]. intros c Hc. apply printable_char, Hc.
    - constructor; [left; reflexivity | constructor]. }
  destruct (drain_complete_line _ st Hwf Hpos Hline) as (buf' & _ & Hd).
  cbn [fst snd] in Hd. rewrite (apply_palette_command upper es st Hn Hok) in Hd.
  destruct (parsePalette_palette_command upper es [] st Hwf Hn Hok)
    as (st1 & Hst' & _ & ER & EG & EB).
  cbv zeta in ER, EG, EB. rewrite Hst' in Hd. clear Hst'.
  destruct (loop_result_shape (palette_command upper es [] ++ [LF]) st Hwf)
    as (pre & Hloop & Hshows & _).
  cbv zeta in Hloop. rewrite Hd in Hloop.
  cbn [needsUpdate set_input commit_palette] in Hloop.
  set (sp := set_input buf' 0 (commit_palette (Z.of_nat (length es)) st1)) in *.
  eexists _, _. split; [exact Hloop|].
  cbn [leds paletteMode paletteSize set_needsUpdate set_leds].
  split; [unfold shows in *; rewrite omap_app, Hshows; reflexivity|].
  split; [unfold frame_of; rewrite length_fmap, length_seqZ; reflexivity|].
  split; [reflexivity|]. split; [reflexivity|].
  intros i Hi.
  assert (Hsize : 1 <= Z.of_nat (length es) <= MAX_PALETTE)
    by (unfold MAX_PALETTE; lia).
  destruct (block_index_blocks (Z.of_nat (length es)) i Hsize Hi) as (Hidx & _).
  set (k := block_index (Z.of_nat (length es)) i) in *.
  destruct (lookup_lt_is_Some_2 es (Z.to_nat k) ltac:(lia)) as [e He].
  exists e. split; [exact He|].
  unfold frame_of. rewrite list_lookup_fmap, lookup_seqZ_lt by lia.
  cbn [fmap option_fmap option_map]. rewrite Z2Nat.id, Z.add_0_l by lia. f_equal.
  rewrite (pixel_palette sp i eq_refl Hsize ltac:(lia)).
  change (paletteSize sp) with (Z.of_nat (length es)). fold k.
  unfold palette_entry.
  change (paletteR sp) with (paletteR st1). change (paletteG sp) with (paletteG st1).
  change (paletteB sp) with (paletteB st1).
  rewrite ER, EG, EB.
  assert (Hnth : forall (f : Entry -> Z) rest,
            nth (Z.to_nat k) ((f <$> es) ++ rest) 0 = f e).
  { intros f rest. apply nth_lookup_Some.
    rewrite lookup_app_l by (rewrite length_fmap; lia).
    rewrite list_lookup_fmap, He. reflexivity. }
  rewrite !Hnth.
  assert (Hek : entry_ok e).
  { rewrite Forall_forall in Hok. apply Hok.
    eapply list_elem_of_lookup_2, He. }
  destruct Hek as (Hr & Hg & Hb).
  destruct (calibrate_exact _ Hr) as (-> & _ & _).
  destruct (calibrate_exact _ Hg) as (_ & -> & _).
  destruct (calibrate_exact _ Hb) as (_ & _ & ->).
  unfold CRGB_of, channel in *.
  assert (0 <= e_g e * 3 / 4 <= 255)
    by (split; [apply Z.div_pos | apply Z.div_le_upper_bound]; lia).
  assert (0 <= e_b e * 9 / 10 <= 255)
    by (split; [apply Z.div_pos | apply Z.div_le_upper_bound]; lia).
  rewrite !Z.mod_small by lia. reflexivity.
Qed.

Lemma palette_command_frame_witness :
  wf initial /\ bufferPos initial = 0 /\
  (1 <= length sample_entries <= 49)%nat /\ Forall entry_ok sample_entries /\
  exists st' tr,
    loop (of_string "P:3:FF0000:00FF00123456" ++ [LF]) initial = Some (st', tr) /\
    shows tr = [leds st'] /\
    leds st' !! 0%nat = Some {| red := 255; green := 0; blue := 0 |} /\
    leds st' !! 85%nat = Some {| red := 0; green := 191; blue := 0 |} /\
    leds st' !! 255%nat = Some {| red := 18; green := 39; blue := 77 |}.
Proof.
  assert (Hn : (1 <= length sample_entries <= 49)%nat) by (cbn; lia).
  split; [exact wf_initial|]. split; [reflexivity|]. split; [exact Hn|].
  split; [exact sample_entries_ok|].
  destruct (palette_command_frame true sample_entries initial wf_initial eq_refl
              Hn sample_entries_ok) as (st' & tr & Hloop & Hshow & _ & _ & _ & Hpx).
  exists st', tr.
  split; [exact Hloop|]. split; [exact Hshow|].
  destruct (Hpx 0 ltac:(vm_compute; split; [discriminate|reflexivity]))
    as (e0 & He0 & H0).
  destruct (Hpx 85 ltac:(vm_compute; split; [discriminate|reflexivity]))
    as (e1 & He1 & H1).
  destruct (Hpx 255 ltac:(vm_compute; split; [discriminate|reflexivity]))
    as (e2 & He2 & H2).
  vm_compute in He0, He1, He2.
  injection He0 as <-. injection He1 as <-. injection He2 as <-.
  split; [exact H0|]. split; [exact H1 | exact H2].
Defined.

(** ** Rejected palette commands in flat mode, and pending renders *)

(** X12: while the sketch is in flat mode, a palette command either is
    accepted (and turns palette mode on) or leaves the frame a render would
    show exactly as it was: whatever a command abandoned half way wrote into
    the palette slots cannot reach the strip in flat mode. *)
Theorem rejected_palette_invisible_in_flat_mode (data : cstring) (st : State) :
  paletteMode st = false ->
  let st' := parsePalette data st in
  (paletteMode st' = true /\ needsUpdate st' = true /\
   1 <= paletteSize st' <= MAX_PALETTE) \/
  (paletteMode st' = false /\ needsUpdate st' = needsUpdate st /\
   frame_of st' = frame_of st).
Proof.
  intros Hmode st'.
  destruct (parsePalette_outcome data st) as [(Hm & Hnu & _ & Hsz) | Hs];
    fold st' in Hm, Hnu, Hsz || fold st' in Hs.
  - left. auto.
  - right. destruct Hs as (Hm & _ & Hr & Hg & Hb & Hnu & _).
    rewrite Hmode in Hm. split; [exact Hm|]. split; [exact Hnu|].
    rewrite (frame_of_flat st' Hm), (frame_of_flat st Hmode), Hr, Hg, Hb.
    reflexivity.
Qed.

Lemma rejected_palette_invisible_in_flat_mode_witness :
  paletteMode initial = false /\
  frame_of (parsePalette truncated_line initial) = frame_of initial.
Proof.
  split; [reflexivity|].
  destruct (rejected_palette_invisible_in_flat_mode truncated_line initial eq_refl)
    as [(Hm & _) | (_ & _ & Hf)].
  - vm_compute in Hm. discriminate.
  - exact Hf.
Defined.

Lemma parsePalette_keeps_pending (data : cstring) (st : State) :
  needsUpdate st = true -> needsUpdate (parsePalette data st) = true.
Proof.
  intros Hnu.
  destruct (parsePalette_outcome data st) as [(_ & H & _) | Hs]; [exact H|].
  destruct Hs as (_ & _ & _ & _ & _ & H & _). rewrite H. exact Hnu.
Qed.

Lemma parseSingle_keeps_pending (data : cstring) (st : State) :
  needsUpdate st = true -> needsUpdate (parseSingle data st) = true.
Proof.
  intros Hnu. unfold parseSingle.
  destruct (sscanf_d_d_d data) as [count [[r g] b]].
  destruct (count =? 3); [reflexivity | exact Hnu].
Qed.

Lemma framer_char_keeps_pending (c : Z) (st : State) :
  needsUpdate st = true -> needsUpdate (framer_char c st).1 = true.
Proof.
  intros Hnu. unfold framer_char.
  destruct ((c =? LF) || (c =? CR)).
  - destruct (0 <? bufferPos st); cbn [fst]; [|exact Hnu].
    cbn [needsUpdate set_bufferPos]. unfold dispatch.
    destruct (_ && _);
      [apply parsePalette_keeps_pending | apply parseSingle_keeps_pending];
      exact Hnu.
  - destruct (bufferPos st <? 510); exact Hnu.
Qed.

Lemma drain_keeps_pending (serial : list Z) :
  forall st, needsUpdate st = true -> needsUpdate (drain serial st).1 = true.
Proof.
  induction serial as [|b serial IH]; intros st Hnu; [exact Hnu|].
  cbn [drain].
  pose proof (framer_char_keeps_pending (char_of_byte b) st Hnu) as H1.
  destruct (framer_char _ st) as [s1 e1]. cbn [fst] in H1.
  specialize (IH s1 H1). destruct (drain serial s1) as [s2 e2]. exact IH.
Qed.

(** X13: a render that has become pending is never cancelled by later
    input: once the bytes [a] of a pass have set needs-render, whatever bytes
    [b] follow in the same pass (rejected lines, unfinished lines, overlong
    lines), the pass ends by transmitting exactly one frame, composed after
    all of [a ++ b] has been drained. *)
Theorem pending_render_survives_input (a b : list Z) (st : State) :
  wf st -> needsUpdate (drain a st).1 = true ->
  let st1 := (drain (a ++ b) st).1 in
  needsUpdate st1 = true /\
  exists st' pre,
    loop (a ++ b) st = Some (st', pre ++ [EvShow (frame_of st1)]) /\
    shows pre = [] /\ leds st' = frame_of st1.
Proof.
  intros Hwf Ha st1.
  assert (Hnu : needsUpdate st1 = true).
  { subst st1. rewrite drain_app. cbn [fst]. apply drain_keeps_pending, Ha. }
  split; [exact Hnu|].
  destruct (loop_result_shape (a ++ b) st Hwf) as (pre & Hloop & Hshows & _).
  cbv zeta in Hloop. fold st1 in Hloop. rewrite Hnu in Hloop.
  eexists _, pre. split; [exact Hloop|]. split; [exact Hshows | reflexivity].
Qed.

Lemma pending_render_survives_input_witness :
  wf initial /\
  needsUpdate (drain (of_string "255,0,0" ++ [LF]) initial).1 = true /\
  needsUpdate (drain ((of_string "255,0,0" ++ [LF]) ++ of_string "garbage" ++ [LF])
                 initial).1 = true.
Proof.
  assert (H : needsUpdate (drain (of_string "255,0,0" ++ [LF]) initial).1 = true)
    by (vm_compute; reflexivity).
  split; [exact wf_initial|]. split; [exact H|].
  exact (proj1 (pending_render_survives_input (of_string "255,0,0" ++ [LF])
                  (of_string "garbage" ++ [LF]) initial wf_initial H)).
Defined.
